(** * A zustand-style store and its selector memoizer

    Shallow embedding of [src/demos/zustand/zustand.ts]:
    - [createStore] (the state cell, the listener [Set], [setState],
      [getState], [subscribe]);
    - the memoized selector built by [useSyncExternalStoreWithSelector];
    - [createImpl] / [useStore], the callable that wires the two.

    JavaScript values carry reference identity for objects and functions;
    user callbacks (listeners, updater functions, initializers, selectors,
    comparators) are command trees that may re-enter the store, and are run
    by a fuel-indexed interpreter. *)

From Stdlib Require Import ZArith Lia.
From stdpp Require Import base decidable option list gmap strings pretty.

Open Scope Z_scope.
Open Scope nat_scope.

(** ** JavaScript values *)

Definition loc := nat.
Definition fid := nat.

(** Objects live in a heap and are referred to by location; functions are
    referred to by an identifier whose code is looked up in a table.
    Numbers are the integer-valued ones: the store does no arithmetic, it
    only compares with [Object.is]. *)
Inductive value : Type :=
| VUndefined
| VNull
| VBool (b : bool)
| VNum (n : Z)
| VStr (s : string)
| VFun (f : fid)
| VObj (l : loc).

#[global] Instance value_eq_dec : EqDecision value.
Proof. solve_decision. Defined.

Inductive jstype : Type :=
| TUndefined | TObject | TBoolean | TNumber | TString | TFunction.

#[global] Instance jstype_eq_dec : EqDecision jstype.
Proof. solve_decision. Defined.

(** [typeof v]; note [typeof null === 'object']. *)
Definition typeof (v : value) : jstype :=
  match v with
  | VUndefined => TUndefined
  | VNull => TObject
  | VBool _ => TBoolean
  | VNum _ => TNumber
  | VStr _ => TString
  | VFun _ => TFunction
  | VObj _ => TObject
  end.

(** [Object.is(a, b)]: same primitive, or same reference. *)
Definition Object_is (a b : value) : bool := bool_decide (a = b).

(** Truthiness, for a comparator's result used as a condition. *)
Definition truthy (v : value) : bool :=
  match v with
  | VUndefined | VNull => false
  | VBool b => b
  | VNum n => negb (Z.eqb n 0)
  | VStr s => negb (bool_decide (s = EmptyString))
  | VFun _ | VObj _ => true
  end.

(** A record: own enumerable properties by key. *)
Abbreviation obj := (gmap string value).
Abbreviation heap_t := (list (gmap string value)).

Fixpoint string_props_from (i : nat) (s : string) : obj :=
  match s with
  | EmptyString => ∅
  | String c rest =>
      <[pretty i := VStr (String c EmptyString)]> (string_props_from (S i) rest)
  end.

(** The own enumerable properties [Object.assign] copies from a source:
    those of the record for an object reference, the indexed characters for
    a string, none for undefined, null, booleans, numbers and (plain)
    functions. *)
Definition own_props (h : heap_t) (v : value) : obj :=
  match v with
  | VObj l => default ∅ (h !! l)
  | VStr s => string_props_from 0 s
  | _ => ∅
  end.

(** [Object.assign({}, a, b)] as a record: the keys of [a], overridden by
    the keys of [b]. *)
Definition Object_assign (h : heap_t) (a b : value) : obj :=
  own_props h b ∪ own_props h a.

Inductive exn : Type :=
| TypeError (msg : string)
| Thrown (v : value).

(** ** The store's variables *)

(** [state] and [listeners] are the two closure variables of [createStore].
    A JavaScript [Set] keeps its entries in insertion order, and a deleted
    entry leaves an empty slot behind (so that a running [forEach] keeps its
    position); [listeners] is that entry list.  [heap] holds the records;
    [calls] is a ghost trace of every user function invocation, with its
    arguments, in the order the calls start. *)
Record store : Type := Store {
  state : value;
  listeners : list (option fid);
  heap : heap_t;
  calls : list (fid * list value)
}.

Definition set_state (v : value) (σ : store) : store :=
  {| state := v; listeners := listeners σ; heap := heap σ; calls := calls σ |}.
Definition set_listeners (ls : list (option fid)) (σ : store) : store :=
  {| state := state σ; listeners := ls; heap := heap σ; calls := calls σ |}.
Definition set_heap (h : heap_t) (σ : store) : store :=
  {| state := state σ; listeners := listeners σ; heap := h; calls := calls σ |}.
Definition log_call (c : fid * list value) (σ : store) : store :=
  {| state := state σ; listeners := listeners σ; heap := heap σ;
     calls := calls σ ++ [c] |}.

(** Lines 37-38: [state] is declared without a value, [listeners] is an
    empty set. *)
Definition fresh_store (h : heap_t) : store :=
  {| state := VUndefined; listeners := []; heap := h; calls := [] |}.

(** ** [Set] operations used by the store *)

(** [s.has(x)] *)
Definition Set_has (x : fid) (s : list (option fid)) : bool :=
  bool_decide (Some x ∈ s).

(** [s.add(x)]: nothing when present, else appended. *)
Definition Set_add (x : fid) (s : list (option fid)) : list (option fid) :=
  if Set_has x s then s else s ++ [Some x].

(** [s.delete(x)]: the entry is emptied in place; the result says whether
    it was present. *)
Fixpoint Set_delete (x : fid) (s : list (option fid)) : bool * list (option fid) :=
  match s with
  | [] => (false, [])
  | e :: rest =>
      if decide (e = Some x) then (true, None :: rest)
      else let '(b, rest') := Set_delete x rest in (b, e :: rest')
  end.

(** The entries still present, in order. *)
Definition live (s : list (option fid)) : list fid := omap id s.

(** ** User code *)

(** What a callback can do: return, throw, use the store's API
    ([getState], [setState], [subscribe], the function [subscribe] returned),
    create a record, read a property. *)
Inductive prog (R : Type) : Type :=
| Ret (r : R)
| Throw (e : exn)
| GetState (k : value → prog R)
| SetState (partial : value) (replace : option bool) (k : prog R)
| Subscribe (listener : fid) (k : prog R)
| Unsubscribe (listener : fid) (k : bool → prog R)
| Alloc (o : obj) (k : loc → prog R)
| GetProp (v : value) (key : string) (k : value → prog R).

Arguments Ret {R} r.
Arguments Throw {R} e.
Arguments GetState {R} k.
Arguments SetState {R} partial replace k.
Arguments Subscribe {R} listener k.
Arguments Unsubscribe {R} listener k.
Arguments Alloc {R} o k.
Arguments GetProp {R} v key k.

(** Result of running code over a state [S]: a value and the state after
    it, an exception and the state as it was left, or the interpreter's
    fuel ran out. *)
Inductive outcome (S R : Type) : Type :=
| Done (r : R) (s : S)
| Raised (e : exn) (s : S)
| OutOfFuel.

Arguments Done {S R} r s.
Arguments Raised {S R} e s.
Arguments OutOfFuel {S R}.

Definition obind {S A B : Type} (o : outcome S A) (f : A → S → outcome S B)
  : outcome S B :=
  match o with
  | Done a s => f a s
  | Raised e s => Raised e s
  | OutOfFuel => OutOfFuel
  end.

Notation "'let*' x 'in' σ := o 'in' k" := (obind o (λ x σ, k))
  (at level 10, x name, σ name, o at level 100, k at level 200,
   only parsing).

Definition runner : Type := ∀ R : Type, prog R → store → outcome store R.

(** ** The memoizer's variables *)

(** Lines 101-103: the closure variables of one memoized selector.  The two
    [let ...!] declarations leave their variables unassigned. *)
Record memo : Type := Memo {
  hasMemo : bool;
  memoizedSnapshot : value;
  memoizedSelection : value
}.

Definition fresh_memo : memo :=
  {| hasMemo := false; memoizedSnapshot := VUndefined;
     memoizedSelection := VUndefined |}.

Definition set_hasMemo (b : bool) (m : memo) : memo :=
  {| hasMemo := b; memoizedSnapshot := memoizedSnapshot m;
     memoizedSelection := memoizedSelection m |}.
Definition set_memoizedSnapshot (v : value) (m : memo) : memo :=
  {| hasMemo := hasMemo m; memoizedSnapshot := v;
     memoizedSelection := memoizedSelection m |}.
Definition set_memoizedSelection (v : value) (m : memo) : memo :=
  {| hasMemo := hasMemo m; memoizedSnapshot := memoizedSnapshot m;
     memoizedSelection := v |}.

(** What [instRef.current], and the variable [inst] read from it, can hold:
    nothing, [null], or the instance record.  There is at most one record
    per component, shared by every closure that captured [inst]; it is
    modelled by its current content. *)
Inductive instance : Type :=
| InstUndefined
| InstNull
| InstRecord (hasValue : bool) (value : value).

(** The hook cells of one component that calls
    [useSyncExternalStoreWithSelector]: the ref cell, the dependencies and
    closure variables of the memoized getter, the dependency of the effect
    as of its last run. *)
Record hooks : Type := Hooks {
  instRef_current : instance;
  memo_deps : option (list value);
  memo_vars : memo;
  effect_deps : option value
}.

(** [v.key] *)
Definition get_prop (h : heap_t) (v : value) (key : string) : exn + value :=
  match v with
  | VUndefined | VNull => inl (TypeError "cannot read properties of undefined or null")
  | _ => inr (default VUndefined (own_props h v !! key))
  end.

Section Store.

(** The code of every function value. *)
Variable fun_body : fid → list value → prog value.

(** [f(args)] *)
Definition call (run : runner) (f : value) (args : list value) (σ : store)
  : outcome store value :=
  match f with
  | VFun g => run value (fun_body g args) (log_call (g, args) σ)
  | _ => Raised (TypeError "not a function") σ
  end.

(** [listeners.forEach(cb)], from entry [index] on: the entry list is read
    afresh at every step, so entries appended by a callback are visited,
    and entries emptied before their turn are skipped. *)
Fixpoint Set_forEach (cb : fid → store → outcome store unit)
    (fuel : nat) (index : nat) (σ : store) : outcome store unit :=
  match fuel with
  | O => OutOfFuel
  | S fuel =>
      match listeners σ !! index with
      | None => Done tt σ
      | Some None => Set_forEach cb fuel (S index) σ
      | Some (Some fn) =>
          let* _u in σ := cb fn σ in Set_forEach cb fuel (S index) σ
      end
  end.

(** Lines 46-49: the assignment to [state]. *)
Definition assign_state (replace : option bool) (nextState : value)
    (σ : store) : store :=
  if default (negb (bool_decide (typeof nextState = TObject))) replace
  then set_state nextState σ
  else
    let o := Object_assign (heap σ) (state σ) nextState in
    set_state (VObj (length (heap σ))) (set_heap (heap σ ++ [o]) σ).

(** Lines 40-43: an updater function is applied to the current state,
    anything else is the next state itself. *)
Definition resolve (run : runner) (partial : value) (σ : store)
  : outcome store value :=
  if bool_decide (typeof partial = TFunction)
  then call run partial [state σ] σ
  else Done partial σ.

(** The callback on line 50: [state] is read when the listener is called,
    [prevState] was fixed before the loop. *)
Definition notify_cb (run : runner) (prevState : value) (fn : fid)
    (σ : store) : outcome store unit :=
  let* _r in σ := call run (VFun fn) [state σ; prevState] σ in Done tt σ.

(** Line 50. *)
Definition notify (run : runner) (fuel : nat) (prevState : value)
    (σ : store) : outcome store unit :=
  Set_forEach (notify_cb run prevState) fuel 0 σ.

(** Lines 39-52. *)
Definition setState (run : runner) (fuel : nat)
    (partial : value) (replace : option bool) (σ : store)
  : outcome store unit :=
  let* nextState in σ := resolve run partial σ in
  if negb (Object_is (state σ) nextState) then
    let prevState := state σ in
    let σ := assign_state replace nextState σ in
    notify run fuel prevState σ
  else Done tt σ.

(** Line 53. *)
Definition getState (σ : store) : value := state σ.

(** Lines 54-57: [subscribe(listener)] adds to the set; the function it
    returns deletes that listener. *)
Definition subscribe (listener : fid) (σ : store) : store :=
  set_listeners (Set_add listener (listeners σ)) σ.

Definition unsubscribe (listener : fid) (σ : store) : bool * store :=
  let '(b, ls) := Set_delete listener (listeners σ) in
  (b, set_listeners ls σ).

(** The interpreter of user code against the store. *)
Fixpoint exec (fuel : nat) (R : Type) (p : prog R) (σ : store)
  : outcome store R :=
  match fuel with
  | O => OutOfFuel
  | S fuel =>
      match p with
      | Ret r => Done r σ
      | Throw e => Raised e σ
      | GetState k => exec fuel R (k (getState σ)) σ
      | SetState partial replace k =>
          let* _u in σ := setState (exec fuel) fuel partial replace σ in
          exec fuel R k σ
      | Subscribe l k => exec fuel R k (subscribe l σ)
      | Unsubscribe l k =>
          let '(b, σ) := unsubscribe l σ in exec fuel R (k b) σ
      | Alloc o k =>
          exec fuel R (k (length (heap σ))) (set_heap (heap σ ++ [o]) σ)
      | GetProp v key k =>
          match get_prop (heap σ) v key with
          | inl e => Raised e σ
          | inr x => exec fuel R (k x) σ
          end
      end
  end.

(** Lines 36-61: [createStore(createState)], in a heap [h].  [state]
    starts out unassigned, that is [undefined]; the initializer runs
    against the store's API; its result is assigned to [state] directly
    (line 59). *)
Definition createStore (fuel : nat) (createState : prog value)
    (h : heap_t) : outcome store unit :=
  let* v in σ := exec fuel value createState (fresh_store h) in
  Done tt (set_state v σ).

(** ** The selector memoizer *)

Definition with_memo {R : Type} (m : memo) (o : outcome store R)
  : outcome (memo * store) R :=
  match o with
  | Done r σ => Done r (m, σ)
  | Raised e σ => Raised e (m, σ)
  | OutOfFuel => OutOfFuel
  end.

(** [v !== undefined] *)
Definition defined (v : value) : bool := negb (bool_decide (v = VUndefined)).

(** Lines 104-137. *)
Definition memoizedSelector (run : runner) (selector isEqual : value)
    (inst : instance) (nextSnapshot : value) (ms : memo * store)
  : outcome (memo * store) value :=
  let '(m, σ) := ms in
  let prevSnapshot := memoizedSnapshot m in
  let prevSelection := memoizedSelection m in
  if negb (hasMemo m) then
    let m := set_hasMemo true m in
    let m := set_memoizedSnapshot nextSnapshot m in
    let* nextSelection in ms :=
      with_memo m (call run selector [nextSnapshot] σ) in
    let '(m, σ) := ms in
    if defined isEqual then
      match inst with
      | InstRecord true currentSelection =>
          Done currentSelection (set_memoizedSelection currentSelection m, σ)
      | InstRecord false _ =>
          Done nextSelection (set_memoizedSelection nextSelection m, σ)
      | InstUndefined | InstNull =>
          Raised (TypeError "cannot read properties of undefined or null")
                 (m, σ)
      end
    else Done nextSelection (set_memoizedSelection nextSelection m, σ)
  else if Object_is prevSnapshot nextSnapshot then Done prevSelection (m, σ)
  else
    let* nextSelection in ms :=
      with_memo m (call run selector [nextSnapshot] σ) in
    let '(m, σ) := ms in
    let* equal in ms :=
      (if defined isEqual then
         let* r in ms :=
           with_memo m (call run isEqual [prevSelection; nextSelection] σ) in
         Done (truthy r) ms
       else Done false (m, σ)) in
    if equal then Done prevSelection ms
    else
      let '(m, σ) := ms in
      let m := set_memoizedSnapshot nextSnapshot m in
      let m := set_memoizedSelection nextSelection m in
      Done nextSelection (m, σ).

(** Line 138. *)
Definition getSnapshotWithSelector (run : runner)
    (getSnapshot : store → value) (selector isEqual : value)
    (inst : instance) (ms : memo * store) : outcome (memo * store) value :=
  memoizedSelector run selector isEqual inst (getSnapshot (snd ms)) ms.

(** Modelled from the spec: [useRef] belongs to the rendering library and
    is not in the source file.  Per section 3 (MemoInstance) the cell it
    returns survives across the renders of one component; what it holds is
    read from the hook cells. *)
Definition useRef (hk : hooks) : instance := instRef_current hk.

(** Modelled from the spec: [useMemo] belongs to the rendering library.
    Per section 3 (MemoState) the memoized getter, and with it its closure
    variables, is kept while its dependencies are the same and built anew,
    with fresh variables, when one of them is replaced. *)
Definition useMemo (deps : list value) (hk : hooks) : memo :=
  if bool_decide (memo_deps hk = Some deps) then memo_vars hk else fresh_memo.

(** Modelled from the spec: [useSyncExternalStore] is the rendering
    primitive of section 6; during a render it returns what the getter it
    is given returns. *)
Definition useSyncExternalStore {S : Type}
    (getSelection : S → outcome S value) (s : S) : outcome S value :=
  getSelection s.

(** Modelled from the spec: [useEffect] belongs to the rendering library.
    Per section 4.2 (commit protocol) the callback runs once the render's
    value has been committed, unless its dependency is the one of its last
    run. *)
Definition useEffect (dep : value) (callback : instance → exn + instance)
    (hk : hooks) : exn + hooks :=
  if bool_decide (effect_deps hk = Some dep) then inr hk
  else
    match callback (instRef_current hk) with
    | inl e => inl e
    | inr inst =>
        inr {| instRef_current := inst; memo_deps := memo_deps hk;
               memo_vars := memo_vars hk; effect_deps := Some dep |}
    end.

(** Lines 91-98: the record is created when the ref cell holds [null];
    otherwise [inst] is whatever the cell holds. *)
Definition inst_of_ref (current : instance) : instance :=
  match current with
  | InstNull => InstRecord false VNull
  | _ => current
  end.

(** Lines 77-142 and 147: one render.  [subscribe] is only handed on to
    the rendering primitive and is left out; [getSnapshot] is one and the
    same function for a given store (line 70), so the dependencies that can
    change between renders are [selector] and [isEqual]. *)
Definition useSyncExternalStoreWithSelector (run : runner)
    (getSnapshot : store → value) (selector isEqual : value)
    (hk : hooks) (σ : store) : outcome (hooks * store) value :=
  let inst := inst_of_ref (useRef hk) in
  let deps := [selector; isEqual] in
  let m := useMemo deps hk in
  let rehook (m : memo) : hooks :=
    {| instRef_current := inst; memo_deps := Some deps; memo_vars := m;
       effect_deps := effect_deps hk |} in
  match
    useSyncExternalStore
      (getSnapshotWithSelector run getSnapshot selector isEqual inst) (m, σ)
  with
  | Done v (m, σ) => Done v (rehook m, σ)
  | Raised e (m, σ) => Raised e (rehook m, σ)
  | OutOfFuel => OutOfFuel
  end.

(** Lines 144-145: the two assignments to the fields of [inst]. *)
Definition record_commit (v : value) (inst : instance) : exn + instance :=
  match inst with
  | InstRecord _ _ => inr (InstRecord true v)
  | InstUndefined | InstNull =>
      inl (TypeError "cannot set properties of undefined or null")
  end.

(** Lines 143-146: the effect, run after the render that returned [v]. *)
Definition commit_effect (v : value) (hk : hooks) : exn + hooks :=
  useEffect v (record_commit v) hk.

(** The hook cells of a component that has not rendered yet, with
    [current] in the ref cell. *)
Definition mount_hooks (current : instance) : hooks :=
  {| instRef_current := current; memo_deps := None; memo_vars := fresh_memo;
     effect_deps := None |}.

(** Line 88 calls [useRef()] with no initial value: the cell holds
    [undefined] when the component mounts. *)
Definition useRef_without_argument : instance := InstUndefined.

(** Lines 63-75. *)
Definition useStore (run : runner) (selector equalityFn : value)
    (hk : hooks) (σ : store) : outcome (hooks * store) value :=
  useSyncExternalStoreWithSelector run getState selector equalityFn hk σ.

(** Lines 28-29: the callable [createImpl] returns; a missing argument is
    [undefined]. *)
Definition useBoundStore (run : runner) (args : list value)
    (hk : hooks) (σ : store) : outcome (hooks * store) value :=
  useStore run (nth 0 args VUndefined) (nth 1 args VUndefined) hk σ.

End Store.

Arguments exec fun_body fuel {R} p σ.

(** ** Callbacks that leave the store alone *)

(** [quiet d p]: [p] neither writes to the store, nor subscribes or
    unsubscribes, nor throws, and is at most [d] steps deep.  It may read
    the state, read properties of values that have them, and create
    records. *)
Inductive quiet {R : Type} : nat → prog R → Prop :=
| quiet_Ret d r : quiet d (Ret r)
| quiet_GetState d k :
    (∀ v, quiet d (k v)) → quiet (S d) (GetState k)
| quiet_Alloc d o k :
    (∀ l, quiet d (k l)) → quiet (S d) (Alloc o k)
| quiet_GetProp d v key k :
    v ≠ VUndefined → v ≠ VNull →
    (∀ x, quiet d (k x)) → quiet (S d) (GetProp v key k).

(** The store with more records in its heap and more calls in its trace. *)
Definition grown (h : heap_t) (cs : list (fid * list value)) (σ : store)
  : store :=
  {| state := state σ; listeners := listeners σ; heap := heap σ ++ h;
     calls := calls σ ++ cs |}.

(** The trace entries of a pass that calls [fns] in turn, each with the new
    and the previous state. *)
Definition notified (new prev : value) (fns : list fid)
  : list (fid * list value) :=
  map (λ fn, (fn, [new; prev])) fns.

(** A registry is a set: no listener is present twice. *)
Definition Set_wf (s : list (option fid)) : Prop := NoDup (live s).

(** The calls to [fn] in a trace. *)
Definition calls_to (fn : fid) (cs : list (fid * list value))
  : list (fid * list value) :=
  filter (λ c, c.1 = fn) cs.

(** ** Invariants of running code *)

(** [o] ends in a store that satisfies [P], if it ends at all. *)
Definition ends_in {R : Type} (P : store → Prop) (o : outcome store R) : Prop :=
  match o with
  | Done _ σ | Raised _ σ => P σ
  | OutOfFuel => True
  end.

Definition runner_keeps (P : store → Prop) (run : runner) : Prop :=
  ∀ (R : Type) (p : prog R) (σ : store), P σ → ends_in P (run R p σ).

(** [run'] agrees with [run] wherever [run] did not run out of fuel. *)
Definition finished {S R : Type} (o : outcome S R) : Prop :=
  match o with OutOfFuel => False | _ => True end.

Definition runner_le (run run' : runner) : Prop :=
  ∀ (R : Type) (p : prog R) (σ : store),
    finished (run R p σ) → run' R p σ = run R p σ.

(** ** The write rule in the words of the specification *)

(** Section 4.1, step 3: the new state is [next] itself when [replace] is
    explicitly true or [next] is not a non-null structured record, and a
    shallow merge otherwise. *)
Definition is_record (v : value) : bool :=
  match v with VObj _ => true | _ => false end.

Definition spec_replaces (replace : option bool) (next : value) : bool :=
  bool_decide (replace = Some true) || negb (is_record next).

(** ** Sample functions and stores *)

Module Demo.

(** The function values used in the examples:
    - 0: the updater [s => ({count: s.count + 1})];
    - 1, 3: listeners that do nothing;
    - 2: a listener that subscribes listener 3;
    - 4: a listener that writes 2 when it is told the state is 1;
    - 5: a listener that unsubscribes itself;
    - 6: the selector [s => s.count];
    - 7: a comparator that always answers true;
    - 8: a function that throws;
    - 9: the updater [s => s];
    - 10: the selector [s => ({count: s.count})]. *)
Definition fun_body (f : fid) (args : list value) : prog value :=
  match f with
  | 0 =>
      GetProp (nth 0 args VUndefined) "count" (λ c,
        match c with
        | VNum n => Alloc {[ "count" := VNum (n + 1) ]} (λ l, Ret (VObj l))
        | _ => Throw (TypeError "not a number")
        end)
  | 2 => Subscribe 3 (Ret VUndefined)
  | 4 =>
      match nth 0 args VUndefined with
      | VNum 1 => SetState (VNum 2) None (Ret VUndefined)
      | _ => Ret VUndefined
      end
  | 5 => Unsubscribe 5 (λ _, Ret VUndefined)
  | 6 => GetProp (nth 0 args VUndefined) "count" Ret
  | 7 => Ret (VBool true)
  | 8 => Throw (Thrown (VStr "boom"))
  | 9 => Ret (nth 0 args VUndefined)
  | 10 =>
      GetProp (nth 0 args VUndefined) "count" (λ c,
        Alloc {[ "count" := c ]} (λ l, Ret (VObj l)))
  | _ => Ret VUndefined
  end.

(** A store holding [{count: 0}] with the given registry. *)
Definition counter (ls : list (option fid)) : store :=
  {| state := VObj 0; listeners := ls;
     heap := [ {[ "count" := VNum 0 ]} ]; calls := [] |}.

(** A store holding the number [n] with the given registry. *)
Definition number (n : Z) (ls : list (option fid)) : store :=
  {| state := VNum n; listeners := ls; heap := []; calls := [] |}.

(** After a merging write: the state is the record at location 1, the
    earlier state is at 0, and 2 holds a selection made from it. *)
Definition after_merge : store :=
  {| state := VObj 1; listeners := [];
     heap := [ {[ "count" := VNum 0 ]}; {[ "count" := VNum 0 ]};
               {[ "count" := VNum 0 ]} ];
     calls := [] |}.

(** A memoizer that has seen the earlier state. *)
Definition memo_before : memo :=
  {| hasMemo := true; memoizedSnapshot := VObj 0;
     memoizedSelection := VObj 2 |}.

End Demo.

(** ** The accessor factory *)

(** Lines 25-34: [createImpl(createState)] builds the store and returns the
    bound hook.  The hook closes over the store's API, so what creation
    yields here is the store, against which [useBoundStore] runs.  Line 31
    copies [setState], [getState] and [subscribe] onto the hook: they are
    the store's own operations. *)
Definition createImpl (fun_body : fid → list value → prog value) (fuel : nat)
    (createState : prog value) (h : heap_t) : outcome store unit :=
  createStore fun_body fuel createState h.

(** Lines 22-24. *)
Definition create (fun_body : fid → list value → prog value) (fuel : nat)
    (createState : prog value) (h : heap_t) : outcome store unit :=
  createImpl fun_body fuel createState h.

(** ** Programs used to state how writes compose *)

(** [setState(v1, replace); setState(v2, replace); ...] *)
Fixpoint write_all (replace : option bool) (vs : list value) : prog unit :=
  match vs with
  | [] => Ret tt
  | v :: vs => SetState v replace (write_all replace vs)
  end.

(** The trace of the passes of consecutive writes: each pass tells the
    listeners [fns] of the new state and of the state before it. *)
Fixpoint notified_chain (prev : value) (vs : list value) (fns : list fid)
  : list (fid * list value) :=
  match vs with
  | [] => []
  | v :: vs => notified v prev fns ++ notified_chain v vs fns
  end.

(** Consecutive values differ, starting from [prev]. *)
Fixpoint changes (prev : value) (vs : list value) : Prop :=
  match vs with
  | [] => True
  | v :: vs => prev ≠ v ∧ changes v vs
  end.

(** [v] does not refer to a record outside the heap [h]. *)
Definition in_heap (h : heap_t) (v : value) : Prop :=
  match v with
  | VObj l => l < length h
  | _ => True
  end.

(** ** A listener that removes another *)

Module Remover.

(** Function value 0 is a listener that unsubscribes listener 2; every
    other function value does nothing. *)
Definition fun_body (f : fid) (args : list value) : prog value :=
  match f with
  | 0 => Unsubscribe 2 (λ _, Ret VUndefined)
  | _ => Ret VUndefined
  end.

End Remover.

(** * Properties *)

Lemma grown_nil σ : grown [] [] σ = σ.
Proof. destruct σ; unfold grown; simpl. by rewrite !app_nil_r. Qed.

Lemma grown_grown h1 c1 h2 c2 σ :
  grown h2 c2 (grown h1 c1 σ) = grown (h1 ++ h2) (c1 ++ c2) σ.
Proof. unfold grown; simpl. by rewrite !app_assoc. Qed.

Lemma get_prop_defined h v key :
  v ≠ VUndefined → v ≠ VNull →
  get_prop h v key = inr (default VUndefined (own_props h v !! key)).
Proof. by destruct v. Qed.

Section StoreFacts.

Variable fun_body : fid → list value → prog value.

Lemma exec_quiet {R : Type} (d : nat) (p : prog R) :
  quiet d p →
  ∀ n σ, d < n → ∃ r h, exec fun_body n p σ = Done r (grown h [] σ).
Proof.
  induction 1 as [d r | d k _ IH | d o k _ IH | d v key k Hu Hn _ IH];
    intros n σ Hlt.
  - destruct n as [|n]; [lia|]. exists r, []. by rewrite grown_nil.
  - destruct n as [|n]; [lia|]. simpl. apply IH. lia.
  - destruct n as [|n]; [lia|]. simpl.
    destruct (IH (length (heap σ)) n (set_heap (heap σ ++ [o]) σ))
      as (r & h & ->); [lia|].
    exists r, (o :: h). f_equal. unfold grown, set_heap; simpl.
    by rewrite <- app_assoc.
  - destruct n as [|n]; [lia|]. simpl.
    rewrite get_prop_defined by done. apply IH. lia.
Qed.

(** Calling a quiet function records the call and returns. *)
Lemma call_quiet (d n : nat) (g : fid) (args : list value) (σ : store) :
  quiet d (fun_body g args) → d < n →
  ∃ r h, call fun_body (@exec fun_body n) (VFun g) args σ
         = Done r (grown h [(g, args)] σ).
Proof.
  intros Hq Hlt. unfold call.
  destruct (exec_quiet d _ Hq n (log_call (g, args) σ) Hlt) as (r & h & ->).
  exists r, h. f_equal. unfold grown, log_call; simpl. by rewrite app_nil_r.
Qed.

(** *** The notification pass over quiet listeners *)

Lemma forEach_end cb fuel i σ :
  length (listeners σ) ≤ i → Set_forEach cb (S fuel) i σ = Done tt σ.
Proof. intros Hi. simpl. by rewrite lookup_ge_None_2. Qed.

Lemma live_app s1 s2 : live (s1 ++ s2) = live s1 ++ live s2.
Proof. apply omap_app. Qed.

Lemma elem_of_live fn s : fn ∈ live s ↔ Some fn ∈ s.
Proof.
  unfold live. rewrite list_elem_of_omap. split.
  - by intros ([y|] & Hy & [= ->]).
  - intros H. by exists (Some fn).
Qed.

(** [k] entries from [i] on, all empty or quiet: the pass calls the
    present ones in order and arrives at entry [i + k] with the state and
    the registry as they were. *)
Lemma forEach_quiet_prefix (d n : nat) (prev : value) :
  d < n →
  ∀ k i σ fuel,
    i + k ≤ length (listeners σ) →
    (∀ fn, Some fn ∈ take k (drop i (listeners σ)) →
           ∀ args, quiet d (fun_body fn args)) →
    ∃ h,
      Set_forEach (notify_cb fun_body (@exec fun_body n) prev)
                  (k + fuel) i σ
      = Set_forEach (notify_cb fun_body (@exec fun_body n) prev)
          fuel (i + k)
          (grown h
             (notified (state σ) prev (live (take k (drop i (listeners σ)))))
             σ).
Proof.
  intros Hd. induction k as [|k IH]; intros i σ fuel Hlen Hq.
  - exists []. rewrite Nat.add_0_r, take_0. simpl. by rewrite grown_nil.
  - destruct (lookup_lt_is_Some_2 (listeners σ) i) as [e He]; [lia|].
    rewrite (drop_S _ _ _ He) in Hq |- *. rewrite firstn_cons in Hq |- *.
    change (S k + fuel) with (S (k + fuel)).
    cbn [Set_forEach]. rewrite He. destruct e as [fn|].
    + unfold notify_cb at 1.
      destruct (call_quiet d n fn [state σ; prev] σ) as (r & h1 & ->);
        [apply Hq; left | done |].
      cbn [obind].
      destruct (IH (S i) (grown h1 [(fn, [state σ; prev])] σ) fuel)
        as (h2 & ->); [simpl; lia | |].
      { intros g Hg. apply Hq. by right. }
      exists (h1 ++ h2). rewrite grown_grown.
      replace (S i + k) with (i + S k) by lia. done.
    + destruct (IH (S i) σ fuel) as (h2 & ->); [lia | |].
      { intros g Hg. apply Hq. by right. }
      exists h2. replace (S i + k) with (i + S k) by lia. done.
Qed.

(** A whole pass over quiet listeners: every listener registered at the
    start is called once, in order, with the new and the previous state;
    state and registry are as before. *)
Lemma notify_quiet (d n fuel : nat) (prev : value) (σ : store) :
  d < n → length (listeners σ) < fuel →
  (∀ fn, Some fn ∈ listeners σ → ∀ args, quiet d (fun_body fn args)) →
  ∃ h, notify fun_body (@exec fun_body n) fuel prev σ
       = Done tt (grown h (notified (state σ) prev (live (listeners σ))) σ).
Proof.
  intros Hd Hfuel Hq. unfold notify.
  replace fuel with (length (listeners σ)
                     + S (fuel - S (length (listeners σ)))) by lia.
  destruct (forEach_quiet_prefix d n prev Hd (length (listeners σ)) 0 σ
              (S (fuel - S (length (listeners σ))))) as (h & ->).
  - simpl; lia.
  - rewrite drop_0, firstn_all. exact Hq.
  - exists h. rewrite drop_0, firstn_all. by apply forEach_end.
Qed.

End StoreFacts.

(** ** Fuel only bounds the depth of a run *)

Section Fuel.

Variable fun_body : fid → list value → prog value.

Lemma obind_finished {S A B : Type} (o : outcome S A)
    (f : A → S → outcome S B) :
  finished (obind o f) → finished o.
Proof. by destruct o. Qed.

Lemma obind_le {S A B : Type} (o o' : outcome S A)
    (f f' : A → S → outcome S B) :
  (finished o → o' = o) →
  (∀ a s, finished (f a s) → f' a s = f a s) →
  finished (obind o f) → obind o' f' = obind o f.
Proof.
  intros Ho Hf Hfin. rewrite Ho by (by eapply obind_finished).
  destruct o; simpl in *; auto.
Qed.

Lemma call_le (run run' : runner) (f : value) (args : list value) (σ : store) :
  runner_le run run' →
  finished (call fun_body run f args σ) →
  call fun_body run' f args σ = call fun_body run f args σ.
Proof. intros Hle. unfold call. destruct f; try done. apply Hle. Qed.

Lemma forEach_le (cb cb' : fid → store → outcome store unit) :
  (∀ fn σ, finished (cb fn σ) → cb' fn σ = cb fn σ) →
  ∀ fuel i σ,
    finished (Set_forEach cb fuel i σ) →
    Set_forEach cb' (S fuel) i σ = Set_forEach cb fuel i σ.
Proof.
  intros Hcb. induction fuel as [|fuel IH]; intros i σ Hfin; [done|].
  cbn [Set_forEach] in Hfin |- *.
  destruct (listeners σ !! i) as [[fn|]|]; [|by apply IH|done].
  apply obind_le; [apply Hcb | | done].
  intros _ σ'. apply IH.
Qed.

Lemma setState_le (run run' : runner) (fuel : nat) (partial : value)
    (replace : option bool) (σ : store) :
  runner_le run run' →
  finished (setState fun_body run fuel partial replace σ) →
  setState fun_body run' (S fuel) partial replace σ
  = setState fun_body run fuel partial replace σ.
Proof.
  intros Hle. unfold setState. apply obind_le.
  - unfold resolve. case_match; [by apply call_le | done].
  - intros next σ1. case_match; [|done]. unfold notify.
    apply forEach_le. intros fn σ2. unfold notify_cb.
    apply obind_le; [by apply call_le | done].
Qed.

(** One more unit of fuel does not change a run that finished. *)
Lemma exec_S (n : nat) : runner_le (@exec fun_body n) (@exec fun_body (S n)).
Proof.
  induction n as [|n IH]; intros R p σ Hfin; [done|].
  destruct p as [r|e|k|partial replace k|l k|l k|o k|v key k];
    cbn [exec] in Hfin |- *.
  - done.
  - done.
  - by apply IH.
  - apply obind_le; [by apply setState_le | | done].
    intros _ σ'. apply IH.
  - by apply IH.
  - destruct (unsubscribe l σ) as [b σ']. by apply IH.
  - by apply IH.
  - destruct (get_prop (heap σ) v key); [done | by apply IH].
Qed.

(** Nor does any larger amount. *)
Lemma exec_mono (n m : nat) {R : Type} (p : prog R) (σ : store) :
  n ≤ m → finished (exec fun_body n p σ) →
  exec fun_body m p σ = exec fun_body n p σ.
Proof.
  induction 1 as [|m Hle IH]; [done|]. intros Hfin.
  rewrite <- (IH Hfin). apply exec_S. by rewrite (IH Hfin).
Qed.

End Fuel.

(** ** The listener registry *)

Lemma Set_has_add x s : Set_has x (Set_add x s) = true.
Proof.
  unfold Set_add. destruct (Set_has x s) eqn:H; [done|].
  unfold Set_has. apply bool_decide_eq_true_2. set_solver.
Qed.



Lemma Set_add_wf x s : Set_wf s → Set_wf (Set_add x s).
Proof.
  unfold Set_wf, Set_add, Set_has. intros Hwf. case_bool_decide; [done|].
  unfold live. rewrite omap_app. simpl. apply NoDup_app. split; [done|].
  split; [|apply NoDup_singleton].
  intros y Hy ->%list_elem_of_singleton.
  apply list_elem_of_omap in Hy as ([z|] & Hz & [= ->]). done.
Qed.


Lemma Set_delete_middle x pre post :
  Some x ∉ pre →
  Set_delete x (pre ++ Some x :: post) = (true, pre ++ None :: post).
Proof.
  induction pre as [|e pre IH]; intros H; simpl.
  - by rewrite decide_True.
  - rewrite decide_False by set_solver. rewrite IH by set_solver. done.
Qed.

Lemma Set_delete_live x s :
  (∀ y, y ∈ live ((Set_delete x s).2) → y ∈ live s)
  ∧ (Set_wf s →
     (x ∉ live ((Set_delete x s).2)) ∧ Set_wf ((Set_delete x s).2)).
Proof.
  unfold Set_wf. induction s as [|e s [IH1 IH2]]; simpl.
  - split; [done|]. intros _. split; [apply not_elem_of_nil | constructor].
  - destruct (decide (e = Some x)) as [->|Hne]; simpl.
    + split; [intros y Hy; by right|]. intros [Hx Hnd]%NoDup_cons. done.
    + destruct (Set_delete x s) as [b s'] eqn:Hdel. simpl in *.
      destruct e as [y|]; simpl; [|done].
      split.
      { intros z [->|Hz]%elem_of_cons; [by left | right; by apply IH1]. }
      intros [Hy Hnd]%NoDup_cons.
      destruct (IH2 Hnd) as [Hx Hnd']. split.
      * rewrite not_elem_of_cons. split; [congruence | done].
      * apply NoDup_cons. split; [|done]. intros Hin. by apply Hy, IH1.
Qed.


Lemma calls_to_notified fn new prev fns :
  calls_to fn (notified new prev fns)
  = notified new prev (filter (λ g, g = fn) fns).
Proof.
  unfold calls_to, notified. induction fns as [|g fns IH]; [done|].
  simpl. rewrite !filter_cons. simpl. rewrite IH.
  destruct (decide (g = fn)); done.
Qed.

Lemma filter_eq_NoDup (fn : fid) (fns : list fid) :
  NoDup fns →
  filter (λ g, g = fn) fns = if bool_decide (fn ∈ fns) then [fn] else [].
Proof.
  induction 1 as [|g fns Hg Hnd IH]; [done|].
  rewrite filter_cons, IH. destruct (decide (g = fn)) as [->|Hne].
  - rewrite (bool_decide_eq_true_2 (fn ∈ fn :: fns)) by (by left).
    by rewrite bool_decide_eq_false_2.
  - assert (Hiff : fn ∈ g :: fns ↔ fn ∈ fns).
    { rewrite elem_of_cons. split; [intros [->|H]; done | by right]. }
    by rewrite (bool_decide_ext _ _ Hiff).
Qed.

(** ** What running code preserves *)

Section Invariant.

Variable fun_body : fid → list value → prog value.

(** A property of stores that every primitive step keeps. *)
Variable P : store → Prop.
Hypothesis P_set_state : ∀ v σ, P σ → P (set_state v σ).
Hypothesis P_alloc : ∀ o σ, P σ → P (set_heap (heap σ ++ [o]) σ).
Hypothesis P_log_call : ∀ c σ, P σ → P (log_call c σ).
Hypothesis P_subscribe : ∀ l σ, P σ → P (subscribe l σ).
Hypothesis P_unsubscribe : ∀ l σ, P σ → P (unsubscribe l σ).2.

Lemma obind_ends_in {A B : Type} (o : outcome store A)
    (f : A → store → outcome store B) :
  ends_in P o → (∀ a σ, P σ → ends_in P (f a σ)) → ends_in P (obind o f).
Proof. destruct o; simpl; auto. Qed.

Lemma call_ends_in (run : runner) (f : value) (args : list value) (σ : store) :
  runner_keeps P run → P σ → ends_in P (call fun_body run f args σ).
Proof.
  intros Hrun Hσ. unfold call. destruct f; try exact Hσ.
  apply Hrun. by apply P_log_call.
Qed.

Lemma forEach_ends_in (cb : fid → store → outcome store unit) :
  (∀ fn σ, P σ → ends_in P (cb fn σ)) →
  ∀ fuel i σ, P σ → ends_in P (Set_forEach cb fuel i σ).
Proof.
  intros Hcb. induction fuel as [|fuel IH]; intros i σ Hσ; [done|].
  simpl. destruct (listeners σ !! i) as [[fn|]|]; [|by apply IH|done].
  apply obind_ends_in; [by apply Hcb|]. intros _ σ' Hσ'. by apply IH.
Qed.

Lemma assign_state_keeps replace next σ :
  P σ → P (assign_state replace next σ).
Proof.
  intros Hσ. unfold assign_state. case_match.
  - by apply P_set_state.
  - by apply P_set_state, P_alloc.
Qed.

Lemma setState_ends_in (run : runner) (fuel : nat) (partial : value)
    (replace : option bool) (σ : store) :
  runner_keeps P run → P σ →
  ends_in P (setState fun_body run fuel partial replace σ).
Proof.
  intros Hrun Hσ. unfold setState. apply obind_ends_in.
  - unfold resolve. case_match; [by apply call_ends_in | done].
  - intros next σ1 Hσ1. case_match; [|done].
    unfold notify. apply forEach_ends_in; [|by apply assign_state_keeps].
    intros fn σ2 Hσ2. unfold notify_cb. apply obind_ends_in.
    + by apply call_ends_in.
    + by intros _ σ3 Hσ3.
Qed.

(** Every run of user code keeps the property. *)
Lemma exec_keeps (n : nat) : runner_keeps P (@exec fun_body n).
Proof.
  induction n as [|n IH]; intros R p σ Hσ; [done|].
  destruct p as [r|e|k|partial replace k|l k|l k|o k|v key k]; simpl.
  - done.
  - done.
  - by apply IH.
  - apply obind_ends_in; [by apply setState_ends_in|].
    intros _ σ' Hσ'. by apply IH.
  - by apply IH, P_subscribe.
  - specialize (P_unsubscribe l σ Hσ). destruct (unsubscribe l σ) as [b σ'].
    by apply IH.
  - by apply IH, P_alloc.
  - destruct (get_prop (heap σ) v key); [done | by apply IH].
Qed.

End Invariant.

(** The registry stays a set, whatever runs. *)
Lemma exec_keeps_Set_wf fun_body (n : nat) :
  runner_keeps (λ σ, Set_wf (listeners σ)) (@exec fun_body n).
Proof.
  apply exec_keeps; try done.
  - intros l σ. apply Set_add_wf.
  - intros l σ Hwf. unfold unsubscribe.
    destruct (Set_delete_live l (listeners σ)) as [_ H].
    destruct (H Hwf) as [_ Hwf'].
    by destruct (Set_delete l (listeners σ)).
Qed.

(** The trace only grows. *)
Lemma exec_extends_calls fun_body (n : nat) (cs : list (fid * list value)) :
  runner_keeps (λ σ, cs `prefix_of` calls σ) (@exec fun_body n).
Proof.
  apply exec_keeps; try done.
  - intros c σ H. simpl. by apply prefix_app_r.
  - intros l σ H. unfold unsubscribe.
    by destruct (Set_delete l (listeners σ)).
Qed.

(** Records are only ever added: the ones that exist are never changed. *)
Lemma exec_extends_heap fun_body (n : nat) (h : heap_t) :
  runner_keeps (λ σ, h `prefix_of` heap σ) (@exec fun_body n).
Proof.
  apply exec_keeps; try done.
  - intros o σ H. simpl. by apply prefix_app_r.
  - intros l σ H. unfold unsubscribe.
    by destruct (Set_delete l (listeners σ)).
Qed.

(** A store just created has a well-formed registry. *)
Lemma createStore_Set_wf fun_body (fuel : nat) (createState : prog value)
    (h : heap_t) (σ : store) :
  createStore fun_body fuel createState h = Done tt σ →
  Set_wf (listeners σ).
Proof.
  unfold createStore. intros H.
  pose proof (exec_keeps_Set_wf fun_body fuel value createState
                (fresh_store h)) as Hk.
  destruct (exec fun_body fuel createState (fresh_store h)) as [v σ'| |];
    simpl in H; [|done..].
  injection H as <-. apply Hk. unfold Set_wf. simpl. constructor.
Qed.

(** ** Writes *)

Section Writes.

Variable fun_body : fid → list value → prog value.

Lemma resolve_plain (run : runner) (partial : value) (σ : store) :
  typeof partial ≠ TFunction →
  resolve fun_body run partial σ = Done partial σ.
Proof. intros H. unfold resolve. by rewrite bool_decide_eq_false_2. Qed.

(** C8: a write whose resolved next value is identical, in the sense of
    [Object.is], to the current state is a no-op.  The store is left as it
    was once the next value had been resolved: [state] is not reassigned
    and no listener is called; for a plain (non-function) argument that is
    the store exactly as it was before the call. *)
Theorem setState_identical_is_noop (run : runner) (fuel : nat)
    (partial : value) (replace : option bool) (σ σ1 : store) (next : value) :
  resolve fun_body run partial σ = Done next σ1 →
  Object_is (state σ1) next = true →
  setState fun_body run fuel partial replace σ = Done tt σ1
  ∧ (typeof partial ≠ TFunction → σ1 = σ).
Proof.
  intros Hres Hsame. split.
  - unfold setState. rewrite Hres. cbn [obind]. by rewrite Hsame.
  - intros Hplain. rewrite resolve_plain in Hres by done. congruence.
Qed.

(** From the resolved next value on, a state-changing write is the
    assignment of lines 46-49 followed by the notification pass. *)
Lemma setState_changed (run : runner) (fuel : nat)
    (partial : value) (replace : option bool) (σ σ1 : store) (next : value) :
  resolve fun_body run partial σ = Done next σ1 →
  Object_is (state σ1) next = false →
  setState fun_body run fuel partial replace σ
  = notify fun_body run fuel (state σ1) (assign_state replace next σ1).
Proof.
  intros Hres Hdiff. unfold setState. rewrite Hres. cbn [obind].
  by rewrite Hdiff.
Qed.

Lemma assign_state_replace (replace : option bool) (next : value) (σ : store) :
  replace = Some true ∨ (replace = None ∧ typeof next ≠ TObject) →
  assign_state replace next σ = set_state next σ.
Proof.
  unfold assign_state. intros [-> | [-> Hty]]; simpl; [done|].
  by rewrite bool_decide_eq_false_2.
Qed.

Lemma assign_state_merge (replace : option bool) (next : value) (σ : store) :
  replace = Some false ∨ (replace = None ∧ typeof next = TObject) →
  assign_state replace next σ
  = set_state (VObj (length (heap σ)))
      (set_heap (heap σ ++ [Object_assign (heap σ) (state σ) next]) σ).
Proof.
  unfold assign_state. intros [-> | [-> Hty]]; simpl; [done|].
  by rewrite bool_decide_eq_true_2.
Qed.

(** One level of merging: a key of [b] wins, any other key is [a]'s. *)
Lemma Object_assign_lookup (h : heap_t) (a b : value) (key : string) :
  Object_assign h a b !! key
  = match own_props h b !! key with
    | Some x => Some x
    | None => own_props h a !! key
    end.
Proof.
  unfold Object_assign. rewrite lookup_union.
  destruct (own_props h b !! key), (own_props h a !! key); done.
Qed.

(** C1 (amended): for a write that changes the state, the state the
    listeners are then notified of is
    - the next value itself when [replace] is explicitly true, or when
      [replace] is omitted and [typeof next] is not ['object'];
    - when [replace] is explicitly false, or when [replace] is omitted and
      the next value is a record: a new record, at a location that held
      nothing before, in which every key among the own properties of the
      next value has the next value's entry and every other key has the
      current state's entry; the records that existed keep their content.
    When the registered listeners are quiet, the write returns and this is
    the state it leaves. *)
Theorem setState_new_state (n : nat) (partial : value)
    (replace : option bool) (σ σ1 : store) (next : value) :
  resolve fun_body (@exec fun_body n) partial σ = Done next σ1 →
  Object_is (state σ1) next = false →
  ∃ σ2,
    setState fun_body (@exec fun_body n) n partial replace σ
    = notify fun_body (@exec fun_body n) n (state σ1) σ2
    ∧ listeners σ2 = listeners σ1 ∧ calls σ2 = calls σ1
    ∧ (replace = Some true ∨ (replace = None ∧ typeof next ≠ TObject) →
       state σ2 = next ∧ heap σ2 = heap σ1)
    ∧ (replace = Some false ∨ (replace = None ∧ is_record next = true) →
       ∃ o,
         state σ2 = VObj (length (heap σ1))
         ∧ heap σ1 !! length (heap σ1) = None
         ∧ heap σ2 = heap σ1 ++ [o]
         ∧ ∀ key,
             o !! key
             = match own_props (heap σ1) next !! key with
               | Some x => Some x
               | None => own_props (heap σ1) (state σ1) !! key
               end)
    ∧ ∀ d,
        (∀ fn, Some fn ∈ listeners σ1 → ∀ args, quiet d (fun_body fn args)) →
        d < n → length (listeners σ1) < n →
        ∃ σ',
          setState fun_body (@exec fun_body n) n partial replace σ = Done tt σ'
          ∧ state σ' = state σ2.
Proof.
  intros Hres Hdiff. exists (assign_state replace next σ1).
  split; [by apply setState_changed|].
  split; [unfold assign_state; by case_match|].
  split; [unfold assign_state; by case_match|].
  split; [|split].
  - intros H. by rewrite assign_state_replace.
  - intros H. rewrite assign_state_merge.
    + eexists. split; [done|]. split; [by apply lookup_ge_None_2|].
      split; [done|]. apply Object_assign_lookup.
    + destruct H as [H | [H1 H2]]; [by left | right; split; [done|]].
      by destruct next.
  - intros d Hq Hd Hlen.
    rewrite (setState_changed _ n partial replace σ σ1 next Hres Hdiff).
    assert (HL : listeners (assign_state replace next σ1) = listeners σ1)
      by (unfold assign_state; by case_match).
    destruct (notify_quiet fun_body d n n (state σ1)
                (assign_state replace next σ1)) as (h' & ->).
    + done.
    + by rewrite HL.
    + intros fn. rewrite HL. apply Hq.
    + eexists. split; [reflexivity | done].
Qed.

End Writes.

(** The spec's replacement rule and the code part ways on an explicit
    [false]: [setState(5, false)] on a store holding [{count: 0}] leaves a
    new record in the state, not the number 5. *)
Lemma explicit_false_merges_a_number :
  spec_replaces (Some false) (VNum 5) = true
  ∧ Object_is (state (Demo.counter [])) (VNum 5) = false
  ∧ ∃ σ',
      setState Demo.fun_body (@exec Demo.fun_body 1) 1 (VNum 5) (Some false)
               (Demo.counter [])
      = Done tt σ'
      ∧ state σ' = VObj 1 ∧ state σ' ≠ VNum 5
      ∧ heap σ' !! 1 = Some {[ "count" := VNum 0 ]}.
Proof.
  split; [done|]. split; [done|]. eexists. split; [reflexivity|].
  split; [done|]. split; [done|]. vm_compute. reflexivity.
Qed.

(** With [replace] omitted, [null] takes the merge branch as well
    ([typeof null] is ['object']): the state becomes a copy of the current
    record. *)
Example null_is_merged :
  ∃ σ',
    setState Demo.fun_body (@exec Demo.fun_body 1) 1 VNull None
             (Demo.counter [])
    = Done tt σ'
    ∧ state σ' = VObj 1
    ∧ heap σ' !! 1 = Some {[ "count" := VNum 0 ]}.
Proof. eexists. split; [reflexivity|]. split; [done|]. vm_compute. reflexivity. Qed.

Lemma setState_new_state_witness :
  ∃ σ',
    setState Demo.fun_body (@exec Demo.fun_body 3) 3 (VFun 0) None
             (Demo.counter [Some 1])
    = Done tt σ'
    ∧ state σ' = VObj 2.
Proof.
  destruct (setState_new_state Demo.fun_body 3 (VFun 0) None
              (Demo.counter [Some 1])
              {| state := VObj 0; listeners := [Some 1];
                 heap := [ {[ "count" := VNum 0 ]}; {[ "count" := VNum 1 ]} ];
                 calls := [(0, [VObj 0])] |}
              (VObj 1))
    as (σ2 & Hset & _ & _ & _ & Hmerge & Hquiet).
  - reflexivity.
  - reflexivity.
  - destruct Hmerge as (o & Hstate & _ & Hheap & Hkeys); [by right|].
    destruct (Hquiet 0) as (σ' & Hdone & Hσ').
    + intros fn Hfn args. simpl in Hfn.
      apply list_elem_of_singleton in Hfn as [= ->]. apply quiet_Ret.
    + lia.
    + simpl. lia.
    + exists σ'. split; [exact Hdone|]. rewrite Hσ', Hstate. reflexivity.
Defined.

Lemma setState_identical_is_noop_witness :
  (setState Demo.fun_body (@exec Demo.fun_body 2) 2 (VObj 0) None
            (Demo.counter [Some 1])
   = Done tt (Demo.counter [Some 1])
   ∧ (typeof (VObj 0) ≠ TFunction →
      Demo.counter [Some 1] = Demo.counter [Some 1]))
  ∧ setState Demo.fun_body (@exec Demo.fun_body 2) 2 (VFun 9) (Some true)
             (Demo.counter [Some 1])
    = Done tt (log_call (9, [VObj 0]) (Demo.counter [Some 1])).
Proof.
  split.
  - apply (setState_identical_is_noop Demo.fun_body (@exec Demo.fun_body 2) 2
             (VObj 0) None (Demo.counter [Some 1]) (Demo.counter [Some 1])
             (VObj 0)); reflexivity.
  - apply (setState_identical_is_noop Demo.fun_body (@exec Demo.fun_body 2) 2
             (VFun 9) (Some true) (Demo.counter [Some 1])
             (log_call (9, [VObj 0]) (Demo.counter [Some 1])) (VObj 0));
      reflexivity.
Defined.

(** Section 8 of the specification, first scenario: three increments of
    [{count: 0}] by an updater function end in [{count: 3}], and the one
    registered listener is called three times. *)
Example three_increments :
  ∃ σ',
    exec Demo.fun_body 8
      (SetState (VFun 0) None (SetState (VFun 0) None (SetState (VFun 0) None
         (GetState (λ s, GetProp s "count" Ret)))))
      (Demo.counter [Some 1])
    = Done (VNum 3) σ'
    ∧ calls_to 1 (calls σ')
      = [(1, [VObj 2; VObj 0]); (1, [VObj 4; VObj 2]); (1, [VObj 6; VObj 4])].
Proof. eexists. split; [vm_compute; reflexivity | reflexivity]. Qed.

(** ** Notifications *)

Section Notifications.

Variable fun_body : fid → list value → prog value.

Lemma assign_state_listeners replace next σ :
  listeners (assign_state replace next σ) = listeners σ.
Proof. unfold assign_state. by case_match. Qed.



Lemma forEach_step cb fuel i σ fn :
  listeners σ !! i = Some (Some fn) →
  Set_forEach cb (S fuel) i σ
  = obind (cb fn σ) (λ _ σ, Set_forEach cb fuel (S i) σ).
Proof. intros H. simpl. by rewrite H. Qed.


Lemma notify_cb_unsubscribe (n : nat) (prev : value) (a c : fid) (r : value)
    (σ : store) :
  fun_body a [state σ; prev] = Unsubscribe c (λ _, Ret r) →
  notify_cb fun_body (@exec fun_body (S (S n))) prev a σ
  = Done tt (unsubscribe c (log_call (a, [state σ; prev]) σ)).2.
Proof.
  intros H. unfold notify_cb, call. rewrite H. cbn [exec].
  by destruct (unsubscribe c _).
Qed.

Lemma drop_after_middle {A : Type} (pre post : list A) (x : A) :
  drop (S (length pre)) (pre ++ x :: post) = post.
Proof.
  rewrite (cons_middle x pre post), app_assoc.
  apply drop_app_length'. rewrite length_app. simpl. lia.
Qed.


Lemma notified_app new prev l1 l2 :
  notified new prev (l1 ++ l2)
  = notified new prev l1 ++ notified new prev l2.
Proof. apply map_app. Qed.




End Notifications.





(** ** Creation *)

Section Creation.

Variable fun_body : fid → list value → prog value.


End Creation.


(** ** The memoized selector *)

Section Memoizer.

Variable fun_body : fid → list value → prog value.

(** The fast path: the snapshot is the memoized one. *)
Lemma memoizedSelector_fast (run : runner) (selector isEqual : value)
    (inst : instance) (snap : value) (m : memo) (σ : store) :
  hasMemo m = true → Object_is (memoizedSnapshot m) snap = true →
  memoizedSelector fun_body run selector isEqual inst snap (m, σ)
  = Done (memoizedSelection m) (m, σ).
Proof. intros Hm Hsnap. unfold memoizedSelector. by rewrite Hm, Hsnap. Qed.

(** Whatever a call returns is what the memoizer holds afterwards. *)
Lemma memoizedSelector_returns_memo (run : runner) (selector isEqual : value)
    (inst : instance) (snap : value) (m m1 : memo) (σ σ1 : store) (v : value) :
  memoizedSelector fun_body run selector isEqual inst snap (m, σ)
  = Done v (m1, σ1) →
  hasMemo m1 = true ∧ memoizedSelection m1 = v.
Proof.
  unfold memoizedSelector. destruct (hasMemo m) eqn:Hm; simpl.
  - destruct (Object_is (memoizedSnapshot m) snap).
    { intros [= <- <- <-]. done. }
    destruct (call fun_body run selector [snap] σ) as [c σ'| |]; simpl;
      [|done..].
    destruct (defined isEqual).
    + destruct (call fun_body run isEqual [memoizedSelection m; c] σ')
        as [r σ''| |]; simpl; [|done..].
      destruct (truthy r); intros [= <- <- <-]; done.
    + simpl. intros [= <- <- <-]; done.
  - destruct (call fun_body run selector [snap] σ) as [c σ'| |]; simpl;
      [|done..].
    destruct (defined isEqual); [|intros [= <- <- <-]; done].
    destruct inst as [| |[] x]; [done..| |]; intros [= <- <- <-]; done.
Qed.



(** The slow path when the comparator says the selections are equal: the
    previous selection is returned and the memoizer is left as it was. *)
Lemma memoizedSelector_equal (run : runner) (selector isEqual : value)
    (inst : instance) (snap : value) (m : memo) (σ σ1 σ2 : store)
    (cand r : value) :
  hasMemo m = true → Object_is (memoizedSnapshot m) snap = false →
  defined isEqual = true →
  call fun_body run selector [snap] σ = Done cand σ1 →
  call fun_body run isEqual [memoizedSelection m; cand] σ1 = Done r σ2 →
  truthy r = true →
  memoizedSelector fun_body run selector isEqual inst snap (m, σ)
  = Done (memoizedSelection m) (m, σ2).
Proof.
  intros Hm Hsnap Hdef Hsel Heq Hr. unfold memoizedSelector.
  rewrite Hm, Hsnap, Hsel. cbn [negb with_memo obind].
  rewrite Hdef, Heq. cbn [with_memo obind]. by rewrite Hr.
Qed.

(** The slow path with a quiet selector and a quiet comparator: both are
    called, in that order. *)
Lemma memoizedSelector_slow_quiet (d n : nat) (f g : fid) (inst : instance)
    (snap : value) (m : memo) (σ : store) :
  hasMemo m = true → Object_is (memoizedSnapshot m) snap = false →
  quiet d (fun_body f [snap]) → (∀ args, quiet d (fun_body g args)) → d < n →
  ∃ v m' h cand,
    memoizedSelector fun_body (@exec fun_body n) (VFun f) (VFun g) inst snap
                     (m, σ)
    = Done v (m', grown h [(f, [snap]); (g, [memoizedSelection m; cand])] σ).
Proof.
  intros Hm Hsnap Hf Hg Hd. unfold memoizedSelector.
  rewrite Hm, Hsnap. cbn [negb].
  destruct (call_quiet fun_body d n f [snap] σ Hf Hd) as (c & h1 & ->).
  cbn [with_memo obind defined bool_decide decide_rel negb].
  change (defined (VFun g)) with true. cbn iota.
  destruct (call_quiet fun_body d n g [memoizedSelection m; c]
              (grown h1 [(f, [snap])] σ) (Hg _) Hd) as (r & h2 & ->).
  cbn [with_memo obind]. rewrite grown_grown.
  destruct (truthy r); eexists _, _, (h1 ++ h2), c; reflexivity.
Qed.

(** C3 (amended): on a call that is not the first, when the snapshot
    changed, a comparator is supplied and it finds the previous selection
    equal to the candidate, the call returns the previous selection and
    leaves every memoization field as it was; the memoized snapshot is
    still the old one.  A following call with the same snapshot therefore
    does not take the fast path: with quiet functions it calls the selector
    and the comparator again. *)
Theorem memoizedSelector_equal_keeps_snapshot (run : runner)
    (selector isEqual : value) (inst : instance) (snap : value)
    (m : memo) (σ σ1 σ2 : store) (cand r : value) :
  hasMemo m = true → Object_is (memoizedSnapshot m) snap = false →
  defined isEqual = true →
  call fun_body run selector [snap] σ = Done cand σ1 →
  call fun_body run isEqual [memoizedSelection m; cand] σ1 = Done r σ2 →
  truthy r = true →
  memoizedSelector fun_body run selector isEqual inst snap (m, σ)
  = Done (memoizedSelection m) (m, σ2)
  ∧ memoizedSnapshot m ≠ snap
  ∧ ∀ d n f g,
      selector = VFun f → isEqual = VFun g →
      quiet d (fun_body f [snap]) → (∀ args, quiet d (fun_body g args)) →
      d < n →
      ∃ v m' h cand',
        memoizedSelector fun_body (@exec fun_body n) selector isEqual inst
                         snap (m, σ2)
        = Done v (m', grown h [(f, [snap]); (g, [memoizedSelection m; cand'])]
                            σ2).
Proof.
  intros Hm Hsnap Hdef Hsel Heq Hr. split; [|split].
  - by eapply memoizedSelector_equal.
  - intros Heqs. unfold Object_is in Hsnap.
    by rewrite bool_decide_eq_true_2 in Hsnap.
  - intros d n f g -> -> Hf Hg Hd.
    by apply (memoizedSelector_slow_quiet d n f g inst snap m σ2).
Qed.

(** C4 (amended): when the selector or the comparator raises, the
    exception reaches the caller of the memoized selector.  On a call that
    is not the first, every memoization field is as before the call.  On
    the first call since creation, [hasMemo] and the memoized snapshot have
    already been set (lines 108-109) when the selector is called; only the
    memoized selection is as before. *)
Theorem memoizedSelector_raises (run : runner) (selector isEqual : value)
    (inst : instance) (snap : value) (m : memo) (σ : store) (e : exn) :
  (hasMemo m = true → Object_is (memoizedSnapshot m) snap = false →
   ∀ σ1, call fun_body run selector [snap] σ = Raised e σ1 →
         memoizedSelector fun_body run selector isEqual inst snap (m, σ)
         = Raised e (m, σ1))
  ∧ (hasMemo m = true → Object_is (memoizedSnapshot m) snap = false →
     defined isEqual = true →
     ∀ cand σ1 σ2,
       call fun_body run selector [snap] σ = Done cand σ1 →
       call fun_body run isEqual [memoizedSelection m; cand] σ1
       = Raised e σ2 →
       memoizedSelector fun_body run selector isEqual inst snap (m, σ)
       = Raised e (m, σ2))
  ∧ (hasMemo m = false →
     ∀ σ1, call fun_body run selector [snap] σ = Raised e σ1 →
           memoizedSelector fun_body run selector isEqual inst snap (m, σ)
           = Raised e ({| hasMemo := true; memoizedSnapshot := snap;
                          memoizedSelection := memoizedSelection m |}, σ1)).
Proof.
  split; [|split].
  - intros Hm Hsnap σ1 Hsel. unfold memoizedSelector.
    by rewrite Hm, Hsnap, Hsel.
  - intros Hm Hsnap Hdef cand σ1 σ2 Hsel Heq. unfold memoizedSelector.
    rewrite Hm, Hsnap, Hsel. cbn [negb with_memo obind].
    by rewrite Hdef, Heq.
  - intros Hm σ1 Hsel. unfold memoizedSelector. by rewrite Hm, Hsel.
Qed.

End Memoizer.



(** With a comparator that finds the selections equal, the memoized
    snapshot is not brought up to date: it is still the old record after
    the call, and the next call on the same snapshot calls the selector and
    the comparator once more. *)
Lemma equal_selection_keeps_old_snapshot :
  ∃ m' σ' σ'',
    memoizedSelector Demo.fun_body (@exec Demo.fun_body 3) (VFun 10) (VFun 7)
                     InstUndefined (VObj 1) (Demo.memo_before, Demo.after_merge)
    = Done (VObj 2) (m', σ')
    ∧ memoizedSnapshot m' = VObj 0 ∧ memoizedSnapshot m' ≠ VObj 1
    ∧ memoizedSelector Demo.fun_body (@exec Demo.fun_body 3) (VFun 10)
                       (VFun 7) InstUndefined (VObj 1) (m', σ')
      = Done (VObj 2) (m', σ'')
    ∧ calls σ'' = calls σ' ++ [(10, [VObj 1]); (7, [VObj 2; VObj 4])].
Proof.
  eexists _, _, _. split; [vm_compute; reflexivity|].
  split; [done|]. split; [done|]. split; [vm_compute; reflexivity|].
  reflexivity.
Qed.

Lemma memoizedSelector_equal_keeps_snapshot_witness :
  memoizedSelector Demo.fun_body (@exec Demo.fun_body 3) (VFun 10) (VFun 7)
                   InstUndefined (VObj 1) (Demo.memo_before, Demo.after_merge)
  = Done (VObj 2)
      (Demo.memo_before,
       grown [ {[ "count" := VNum 0 ]} ] [(10, [VObj 1]); (7, [VObj 2; VObj 3])]
             Demo.after_merge)
  ∧ memoizedSnapshot Demo.memo_before ≠ VObj 1.
Proof.
  destruct (memoizedSelector_equal_keeps_snapshot Demo.fun_body
              (@exec Demo.fun_body 3) (VFun 10) (VFun 7) InstUndefined
              (VObj 1) Demo.memo_before Demo.after_merge
              (grown [ {[ "count" := VNum 0 ]} ] [(10, [VObj 1])]
                     Demo.after_merge)
              (grown [ {[ "count" := VNum 0 ]} ]
                     [(10, [VObj 1]); (7, [VObj 2; VObj 3])] Demo.after_merge)
              (VObj 3) (VBool true))
    as (Hcall & Hsnap & _).
  - reflexivity.
  - reflexivity.
  - reflexivity.
  - vm_compute. reflexivity.
  - vm_compute. reflexivity.
  - reflexivity.
  - split; [exact Hcall | exact Hsnap].
Defined.

(** A selector that throws on the first call leaves [hasMemo] set and the
    snapshot memoized; the next call on that snapshot then answers
    [undefined] from the fast path. *)
Lemma first_call_raise_sets_hasMemo :
  ∃ m' σ',
    memoizedSelector Demo.fun_body (@exec Demo.fun_body 2) (VFun 8) VUndefined
                     InstUndefined (VObj 0) (fresh_memo, Demo.counter [])
    = Raised (Thrown (VStr "boom")) (m', σ')
    ∧ hasMemo fresh_memo = false ∧ hasMemo m' = true
    ∧ memoizedSnapshot fresh_memo = VUndefined ∧ memoizedSnapshot m' = VObj 0
    ∧ memoizedSelector Demo.fun_body (@exec Demo.fun_body 2) (VFun 8)
                       VUndefined InstUndefined (VObj 0) (m', σ')
      = Done VUndefined (m', σ').
Proof. eexists _, _. split; [reflexivity|]. done. Qed.

Lemma memoizedSelector_raises_witness :
  memoizedSelector Demo.fun_body (@exec Demo.fun_body 2) (VFun 8) (VFun 8)
                   InstUndefined (VObj 1) (Demo.memo_before, Demo.after_merge)
  = Raised (Thrown (VStr "boom"))
           (Demo.memo_before, log_call (8, [VObj 1]) Demo.after_merge)
  ∧ memoizedSelector Demo.fun_body (@exec Demo.fun_body 2) (VFun 6) (VFun 8)
                     InstUndefined (VObj 1) (Demo.memo_before, Demo.after_merge)
    = Raised (Thrown (VStr "boom"))
             (Demo.memo_before,
              log_call (8, [VObj 2; VNum 0])
                       (log_call (6, [VObj 1]) Demo.after_merge))
  ∧ memoizedSelector Demo.fun_body (@exec Demo.fun_body 2) (VFun 8) (VFun 8)
                     InstUndefined (VObj 1) (fresh_memo, Demo.after_merge)
    = Raised (Thrown (VStr "boom"))
             ({| hasMemo := true; memoizedSnapshot := VObj 1;
                 memoizedSelection := VUndefined |},
              log_call (8, [VObj 1]) Demo.after_merge).
Proof.
  split; [|split].
  - apply (memoizedSelector_raises Demo.fun_body (@exec Demo.fun_body 2)
             (VFun 8) (VFun 8) InstUndefined (VObj 1) Demo.memo_before
             Demo.after_merge (Thrown (VStr "boom"))); reflexivity.
  - eapply (memoizedSelector_raises Demo.fun_body (@exec Demo.fun_body 2)
              (VFun 6) (VFun 8) InstUndefined (VObj 1) Demo.memo_before
              Demo.after_merge (Thrown (VStr "boom"))); reflexivity.
  - apply (memoizedSelector_raises Demo.fun_body (@exec Demo.fun_body 2)
             (VFun 8) (VFun 8) InstUndefined (VObj 1) fresh_memo
             Demo.after_merge (Thrown (VStr "boom"))); reflexivity.
Defined.

(** ** The instance record and the bound hook *)

Section Hooks.

Variable fun_body : fid → list value → prog value.

(** When the instance record exists and holds a committed selection, the
    first call of a memoizer that has a comparator returns that selection
    and drops the candidate the selector has just computed. *)
Lemma first_call_reuses_committed (run : runner) (selector isEqual : value)
    (snap committed cand : value) (m : memo) (σ σ1 : store) :
  hasMemo m = false → defined isEqual = true →
  call fun_body run selector [snap] σ = Done cand σ1 →
  memoizedSelector fun_body run selector isEqual (InstRecord true committed)
                   snap (m, σ)
  = Done committed
      ({| hasMemo := true; memoizedSnapshot := snap;
          memoizedSelection := committed |}, σ1).
Proof.
  intros Hm Hdef Hsel. unfold memoizedSelector.
  rewrite Hm, Hsel. cbn [negb with_memo obind]. by rewrite Hdef.
Qed.

(** When it exists, the effect stores the committed selection in it. *)
Lemma commit_effect_records (v : value) (hk : hooks) (hv : bool) (x : value) :
  instRef_current hk = InstRecord hv x → effect_deps hk ≠ Some v →
  ∃ hk', commit_effect v hk = inr hk'
         ∧ instRef_current hk' = InstRecord true v.
Proof.
  intros Hinst Hdep. unfold commit_effect, useEffect.
  rewrite bool_decide_eq_false_2 by done. rewrite Hinst. simpl. eauto.
Qed.

(** The record is created by a render exactly when the cell holds [null]. *)
Lemma render_creates_record_from_null (run : runner)
    (selector isEqual : value) (hk hk' : hooks) (σ σ' : store) (v : value) :
  instRef_current hk = InstNull →
  useSyncExternalStoreWithSelector fun_body run getState selector isEqual
    hk σ
  = Done v (hk', σ') →
  instRef_current hk' = InstRecord false VNull.
Proof.
  unfold useSyncExternalStoreWithSelector, useSyncExternalStore, useRef.
  intros ->.
  destruct (getSnapshotWithSelector _ _ _ _ _ _ _) as [r [m s]|e [m s]|];
    intros [= <- <- <-]; done.
Qed.

(** A render that rebuilds the memoizer, in a component whose instance
    record holds a committed selection, returns that very selection. *)
Lemma render_recreated_reuses_committed (run : runner)
    (selector isEqual : value) (hk : hooks) (σ σ1 : store)
    (committed cand : value) :
  instRef_current hk = InstRecord true committed →
  memo_deps hk ≠ Some [selector; isEqual] →
  defined isEqual = true →
  call fun_body run selector [state σ] σ = Done cand σ1 →
  useSyncExternalStoreWithSelector fun_body run getState selector isEqual
    hk σ
  = Done committed
      ({| instRef_current := InstRecord true committed;
          memo_deps := Some [selector; isEqual];
          memo_vars := {| hasMemo := true; memoizedSnapshot := state σ;
                          memoizedSelection := committed |};
          effect_deps := effect_deps hk |}, σ1).
Proof.
  intros Hinst Hdeps Hdef Hsel.
  unfold useSyncExternalStoreWithSelector, useSyncExternalStore, useRef,
    useMemo, getSnapshotWithSelector.
  rewrite Hinst, bool_decide_eq_false_2 by done. cbn [inst_of_ref snd].
  unfold getState.
  by rewrite (first_call_reuses_committed run selector isEqual (state σ)
                committed cand fresh_memo σ σ1).
Qed.

(** A first call with a comparator and no instance record fails. *)
Lemma first_call_without_instance (run : runner) (selector isEqual : value)
    (snap : value) (m : memo) (σ : store) (v : value) (s : memo * store) :
  hasMemo m = false → defined isEqual = true →
  memoizedSelector fun_body run selector isEqual InstUndefined snap (m, σ)
  ≠ Done v s.
Proof.
  intros Hm Hdef. unfold memoizedSelector. rewrite Hm. cbn [negb].
  destruct (call fun_body run selector [snap] σ) as [c σ1| |];
    cbn [with_memo obind]; [|done..].
  by rewrite Hdef.
Qed.

(** C2 (the code at a component's first render): [useRef()] is given no
    initial value, so the cell holds [undefined], which the test on line 91
    ([=== null]) lets through: no instance record is created.  A render
    with a comparator then never returns a selection: once the selector has
    returned, reading [inst.hasValue] raises.  A render that does return
    one leaves the cell at [undefined], and the effect that should record
    the committed selection raises instead. *)
Theorem mount_leaves_no_instance_record (run : runner)
    (selector isEqual : value) (σ : store) :
  (defined isEqual = true →
   (∀ v s,
      useSyncExternalStoreWithSelector fun_body run getState selector isEqual
        (mount_hooks useRef_without_argument) σ
      ≠ Done v s)
   ∧ (∀ cand σ1,
        call fun_body run selector [state σ] σ = Done cand σ1 →
        ∃ hk',
          useSyncExternalStoreWithSelector fun_body run getState selector
            isEqual (mount_hooks useRef_without_argument) σ
          = Raised (TypeError "cannot read properties of undefined or null")
                   (hk', σ1)))
  ∧ (∀ v hk' σ',
       useSyncExternalStoreWithSelector fun_body run getState selector
         isEqual (mount_hooks useRef_without_argument) σ
       = Done v (hk', σ') →
       instRef_current hk' = InstUndefined
       ∧ commit_effect v hk'
         = inl (TypeError "cannot set properties of undefined or null")).
Proof.
  unfold useSyncExternalStoreWithSelector, useSyncExternalStore, useRef,
    useMemo, getSnapshotWithSelector.
  cbn [mount_hooks useRef_without_argument instRef_current inst_of_ref
       memo_deps memo_vars effect_deps snd].
  assert (Hif : ∀ b : bool, (if b then fresh_memo else fresh_memo) = fresh_memo)
    by (by intros []).
  rewrite Hif. clear Hif. split; [intros Hdef; split|].
  - intros v s.
    destruct (memoizedSelector _ _ _ _ _ _ _) as [r [m s']|e [m s']|] eqn:Hsel;
      [|done..].
    by apply first_call_without_instance in Hsel.
  - intros cand σ1 Hsel. unfold memoizedSelector, getState.
    cbn [fresh_memo hasMemo negb]. rewrite Hsel. cbn [with_memo obind].
    rewrite Hdef. eexists. reflexivity.
  - intros v hk' σ'.
    destruct (memoizedSelector _ _ _ _ _ _ _) as [r [m s']|e [m s']|];
      [|done..].
    intros [= <- <- <-]. split; reflexivity.
Qed.

(** C6 (the code when the bound hook is called with no argument): the
    selector is [undefined], and the first thing the memoized selector does
    with it is call it; the render raises a [TypeError] whatever the store
    holds. *)
Theorem useBoundStore_without_selector_raises (run : runner)
    (current : instance) (σ : store) :
  useBoundStore fun_body run [] (mount_hooks current) σ
  = Raised (TypeError "not a function")
      ({| instRef_current := inst_of_ref current;
          memo_deps := Some [VUndefined; VUndefined];
          memo_vars := {| hasMemo := true; memoizedSnapshot := state σ;
                          memoizedSelection := VUndefined |};
          effect_deps := None |}, σ).
Proof.
  unfold useBoundStore, useStore, useSyncExternalStoreWithSelector, useMemo.
  cbn [mount_hooks memo_deps]. rewrite bool_decide_eq_false_2 by done.
  reflexivity.
Qed.

End Hooks.

Lemma mount_leaves_no_instance_record_witness :
  (∃ hk',
     useSyncExternalStoreWithSelector Demo.fun_body (@exec Demo.fun_body 2)
       getState (VFun 6) (VFun 7) (mount_hooks useRef_without_argument)
       (Demo.counter [])
     = Raised (TypeError "cannot read properties of undefined or null")
              (hk', log_call (6, [VObj 0]) (Demo.counter [])))
  ∧ instRef_current
      {| instRef_current := InstUndefined;
         memo_deps := Some [VFun 6; VUndefined];
         memo_vars := {| hasMemo := true; memoizedSnapshot := VObj 0;
                         memoizedSelection := VNum 0 |};
         effect_deps := None |}
    = InstUndefined
  ∧ commit_effect (VNum 0)
      {| instRef_current := InstUndefined;
         memo_deps := Some [VFun 6; VUndefined];
         memo_vars := {| hasMemo := true; memoizedSnapshot := VObj 0;
                         memoizedSelection := VNum 0 |};
         effect_deps := None |}
    = inl (TypeError "cannot set properties of undefined or null").
Proof.
  split.
  - destruct (mount_leaves_no_instance_record Demo.fun_body
                (@exec Demo.fun_body 2) (VFun 6) (VFun 7) (Demo.counter []))
      as [Hcmp _].
    destruct (Hcmp eq_refl) as [_ Hraise].
    apply (Hraise (VNum 0)). reflexivity.
  - apply (mount_leaves_no_instance_record Demo.fun_body
             (@exec Demo.fun_body 2) (VFun 6) VUndefined (Demo.counter [])
           ) with (σ' := log_call (6, [VObj 0]) (Demo.counter [])).
    reflexivity.
Defined.

(** ** Scenarios *)

(** Section 8 of the specification, last scenario: with the selector
    [s => s.count] and no comparator, writing [{count: 1}] twice produces
    two distinct state records; the second read calls the selector again
    and returns the same number. *)
Example same_value_new_object :
  ∃ σ1 m1 σ2 σ3 m2 σ4,
    exec Demo.fun_body 4
      (Alloc {[ "count" := VNum 1 ]} (λ l, SetState (VObj l) None (Ret tt)))
      (Demo.counter [])
    = Done tt σ1
    ∧ getSnapshotWithSelector Demo.fun_body (@exec Demo.fun_body 3) getState
        (VFun 6) VUndefined InstUndefined (fresh_memo, σ1)
      = Done (VNum 1) (m1, σ2)
    ∧ exec Demo.fun_body 4
        (Alloc {[ "count" := VNum 1 ]} (λ l, SetState (VObj l) None (Ret tt)))
        σ2
      = Done tt σ3
    ∧ state σ3 ≠ state σ2
    ∧ getSnapshotWithSelector Demo.fun_body (@exec Demo.fun_body 3) getState
        (VFun 6) VUndefined InstUndefined (m1, σ3)
      = Done (VNum 1) (m2, σ4)
    ∧ calls σ4 = [(6, [state σ2]); (6, [state σ3])].
Proof.
  eexists _, _, _, _, _, _.
  split; [vm_compute; reflexivity|]. split; [vm_compute; reflexivity|].
  split; [vm_compute; reflexivity|]. split; [done|].
  split; [vm_compute; reflexivity|]. reflexivity.
Qed.

(** [create(() => ({count: 0}))], then the bound hook called with no
    argument in a component's first render: the render raises. *)
Example create_then_call_without_selector :
  ∃ σ hk,
    createStore Demo.fun_body 3
      (Alloc {[ "count" := VNum 0 ]} (λ l, Ret (VObj l))) []
    = Done tt σ
    ∧ getState σ = VObj 0
    ∧ useBoundStore Demo.fun_body (@exec Demo.fun_body 3) []
        (mount_hooks useRef_without_argument) σ
      = Raised (TypeError "not a function") (hk, σ).
Proof.
  eexists _, _. split; [vm_compute; reflexivity|]. split; reflexivity.
Qed.

(** The function [subscribe] returns deletes by listener, not by
    subscription: called again after the same listener has been subscribed
    anew, it removes the new registration. *)
Example stale_unsubscribe_removes_new_subscription :
  ∃ σ',
    exec Demo.fun_body 6
      (Subscribe 1 (Unsubscribe 1 (λ _,
         Subscribe 1 (Unsubscribe 1 (λ removed, Ret removed)))))
      (Demo.number 0 [])
    = Done true σ'
    ∧ live (listeners σ') = [].
Proof. eexists. split; reflexivity. Qed.

(** * Further properties of the code *)

(** ** The memoized selector: recomputation *)

Section MemoizerMore.

Variable fun_body : fid → list value → prog value.

(** X1: on a call that is not the first, when the snapshot changed and
    either no comparator is supplied or the comparator's answer is falsy,
    the candidate is returned and memoized together with the snapshot
    (lines 128-136); a following call on that snapshot returns the same
    candidate from the fast path and leaves memoizer and store as they
    are. *)
Theorem memoizedSelector_adopts_candidate (run : runner)
    (selector isEqual : value) (inst : instance) (snap : value)
    (m : memo) (σ σ1 σ2 : store) (cand : value) :
  hasMemo m = true → Object_is (memoizedSnapshot m) snap = false →
  call fun_body run selector [snap] σ = Done cand σ1 →
  (defined isEqual = false ∧ σ2 = σ1)
  ∨ (defined isEqual = true
     ∧ ∃ r, call fun_body run isEqual [memoizedSelection m; cand] σ1
            = Done r σ2
            ∧ truthy r = false) →
  let m' := {| hasMemo := true; memoizedSnapshot := snap;
               memoizedSelection := cand |} in
  memoizedSelector fun_body run selector isEqual inst snap (m, σ)
  = Done cand (m', σ2)
  ∧ memoizedSelector fun_body run selector isEqual inst snap (m', σ2)
    = Done cand (m', σ2).
Proof.
  intros Hm Hsnap Hsel Hcmp m'. split.
  - unfold memoizedSelector. rewrite Hm, Hsnap, Hsel.
    cbn [negb with_memo obind].
    destruct Hcmp as [[Hdef ->] | (Hdef & r & Hr & Hfalse)]; rewrite Hdef.
    + cbn [obind]. subst m'. destruct m as [hm ms msel]. simpl in Hm.
      by subst hm.
    + rewrite Hr. cbn [with_memo obind]. rewrite Hfalse.
      subst m'. destruct m as [hm ms msel]. simpl in Hm. by subst hm.
  - apply memoizedSelector_fast; [done|]. simpl. unfold Object_is.
    by rewrite bool_decide_eq_true_2.
Qed.

(** X2: on the first call since creation the comparator is never called:
    whatever [isEqual] and the instance record are, the store is left as
    the selector left it.  Without a comparator the selector's result is
    returned whatever the instance record holds; with one, a committed
    selection is returned whatever the selector has just computed. *)
Theorem first_call_never_compares (run : runner) (selector : value)
    (snap : value) (m : memo) (σ σ1 : store) (cand : value) :
  hasMemo m = false →
  call fun_body run selector [snap] σ = Done cand σ1 →
  (∀ isEqual inst,
     match memoizedSelector fun_body run selector isEqual inst snap (m, σ) with
     | Done _ (_, s) | Raised _ (_, s) => s = σ1
     | OutOfFuel => False
     end)
  ∧ (∀ isEqual inst,
       defined isEqual = false →
       memoizedSelector fun_body run selector isEqual inst snap (m, σ)
       = Done cand ({| hasMemo := true; memoizedSnapshot := snap;
                       memoizedSelection := cand |}, σ1))
  ∧ (∀ isEqual committed,
       defined isEqual = true →
       memoizedSelector fun_body run selector isEqual
                        (InstRecord true committed) snap (m, σ)
       = Done committed ({| hasMemo := true; memoizedSnapshot := snap;
                            memoizedSelection := committed |}, σ1)).
Proof.
  intros Hm Hsel. split; [|split].
  - intros isEqual inst. unfold memoizedSelector. rewrite Hm, Hsel.
    cbn [negb with_memo obind].
    destruct (defined isEqual); [|done]. by destruct inst as [| |[] x].
  - intros isEqual inst Hdef. unfold memoizedSelector. rewrite Hm, Hsel.
    cbn [negb with_memo obind]. by rewrite Hdef.
  - intros isEqual committed Hdef.
    by eapply first_call_reuses_committed.
Qed.

End MemoizerMore.

(** ** Renders and the bound hook *)

Section RenderMore.

Variable fun_body : fid → list value → prog value.

Lemma inst_of_ref_idem (c : instance) :
  inst_of_ref (inst_of_ref c) = inst_of_ref c.
Proof. by destruct c. Qed.

(** Without a comparator, a call that returns leaves its snapshot
    memoized. *)
Lemma memoizedSelector_memoizes_snapshot (run : runner) (selector : value)
    (inst : instance) (snap : value) (m m1 : memo) (σ σ1 : store) (v : value) :
  memoizedSelector fun_body run selector VUndefined inst snap (m, σ)
  = Done v (m1, σ1) →
  hasMemo m1 = true ∧ memoizedSelection m1 = v
  ∧ Object_is (memoizedSnapshot m1) snap = true.
Proof.
  intros Hcall.
  destruct (memoizedSelector_returns_memo fun_body _ _ _ _ _ _ _ _ _ _ Hcall)
    as [Hm Hv].
  split; [done|]. split; [done|]. revert Hcall.
  assert (Hrefl : Object_is snap snap = true)
    by (unfold Object_is; by rewrite bool_decide_eq_true_2).
  unfold memoizedSelector. destruct (hasMemo m); cbn [negb].
  - destruct (Object_is (memoizedSnapshot m) snap) eqn:Hsnap.
    { by intros [= <- <- <-]. }
    destruct (call fun_body run selector [snap] σ) as [c σ'| |];
      cbn [with_memo obind]; [|done..].
    change (defined VUndefined) with false. cbn [obind].
    by intros [= <- <- <-].
  - destruct (call fun_body run selector [snap] σ) as [c σ'| |];
      cbn [with_memo obind]; [|done..].
    change (defined VUndefined) with false. by intros [= <- <- <-].
Qed.

(** X3: the memoized getter lives as long as its dependencies (line 140).
    With no comparator, after a render that returned [v] and left the state
    as it was, a second render with the same selector value returns [v]
    again, calls nothing and leaves the hook cells as they are; a render
    with another selector value starts from a fresh memoizer, so that
    selector is called although the state has not changed. *)
Theorem render_again (run : runner) (selector : value) (hk hk1 : hooks)
    (σ σ1 : store) (v : value) :
  useSyncExternalStoreWithSelector fun_body run getState selector VUndefined
    hk σ
  = Done v (hk1, σ1) →
  state σ1 = state σ →
  useSyncExternalStoreWithSelector fun_body run getState selector VUndefined
    hk1 σ1
  = Done v (hk1, σ1)
  ∧ ∀ selector' cand σ2,
      selector' ≠ selector →
      call fun_body run selector' [state σ1] σ1 = Done cand σ2 →
      useSyncExternalStoreWithSelector fun_body run getState selector'
        VUndefined hk1 σ1
      = Done cand
          ({| instRef_current := instRef_current hk1;
              memo_deps := Some [selector'; VUndefined];
              memo_vars := {| hasMemo := true; memoizedSnapshot := state σ1;
                              memoizedSelection := cand |};
              effect_deps := effect_deps hk1 |}, σ2).
Proof.
  unfold useSyncExternalStoreWithSelector, useSyncExternalStore, useRef,
    getSnapshotWithSelector. cbn [snd]. unfold getState.
  destruct (memoizedSelector fun_body run selector VUndefined
              (inst_of_ref (instRef_current hk)) (state σ) (useMemo _ hk, σ))
    as [r [m1 s]|e [m1 s]|] eqn:Hcall; [|done..].
  intros [= -> <- ->] Hstate.
  apply memoizedSelector_memoizes_snapshot in Hcall as (Hm & Hv & Hsnap).
  cbn [instRef_current memo_deps memo_vars effect_deps].
  rewrite inst_of_ref_idem. split.
  - unfold useMemo. cbn [memo_deps memo_vars].
    rewrite bool_decide_eq_true_2 by done.
    rewrite Hstate, memoizedSelector_fast by done. by rewrite Hv.
  - intros selector' cand σ2 Hne Hsel. unfold useMemo. cbn [memo_deps].
    rewrite bool_decide_eq_false_2 by congruence.
    unfold memoizedSelector. cbn [fresh_memo hasMemo negb].
    rewrite Hsel. cbn [with_memo obind].
    change (defined VUndefined) with false. reflexivity.
Qed.

(** X4: called with a selector and no comparator in a component's first
    render, the bound hook returns what the selector makes of the current
    state, whatever the ref cell holds, and the selector has been called
    once, with that state. *)
Theorem useBoundStore_selects (run : runner) (selector : value)
    (current : instance) (σ σ1 : store) (v : value) :
  call fun_body run selector [getState σ] σ = Done v σ1 →
  useBoundStore fun_body run [selector] (mount_hooks current) σ
  = Done v
      ({| instRef_current := inst_of_ref current;
          memo_deps := Some [selector; VUndefined];
          memo_vars := {| hasMemo := true; memoizedSnapshot := getState σ;
                          memoizedSelection := v |};
          effect_deps := None |}, σ1).
Proof.
  intros Hsel.
  unfold useBoundStore, useStore, useSyncExternalStoreWithSelector,
    useSyncExternalStore, useRef, useMemo, getSnapshotWithSelector.
  cbn [nth mount_hooks memo_deps instRef_current effect_deps snd].
  rewrite bool_decide_eq_false_2 by done.
  unfold memoizedSelector. cbn [fresh_memo hasMemo negb].
  rewrite Hsel. cbn [with_memo obind].
  change (defined VUndefined) with false. reflexivity.
Qed.

End RenderMore.

(** ** The registry: round trips and order *)

Lemma Set_delete_present x s :
  Some x ∈ s → (Set_delete x s).1 = true.
Proof.
  induction s as [|e s IH]; [by intros ?%elem_of_nil|].
  intros [Heq|Hin]%elem_of_cons; simpl.
  - by rewrite decide_True.
  - destruct (decide (e = Some x)); [done|].
    specialize (IH Hin). by destruct (Set_delete x s).
Qed.

Lemma filter_ne_absent (x : fid) (l : list fid) :
  x ∉ l → filter (λ g, g ≠ x) l = l.
Proof.
  induction l as [|y l IH]; [done|].
  intros [Hne Hl]%not_elem_of_cons.
  rewrite filter_cons_True by congruence. by rewrite IH.
Qed.

Lemma Set_delete_filter x s :
  Set_wf s → live ((Set_delete x s).2) = filter (λ g, g ≠ x) (live s).
Proof.
  unfold Set_wf. induction s as [|e s IH]; [done|]. simpl.
  destruct (decide (e = Some x)) as [->|Hne]; simpl.
  - intros [Hx Hnd]%NoDup_cons.
    rewrite filter_cons_False by (intros H; by apply H).
    by rewrite filter_ne_absent.
  - destruct (Set_delete x s) as [b s'] eqn:Hdel. simpl in *.
    destruct e as [y|]; simpl; [|done].
    intros [Hy Hnd]%NoDup_cons.
    rewrite filter_cons_True by congruence. by rewrite IH.
Qed.

Lemma Set_delete_length x s : length ((Set_delete x s).2) = length s.
Proof.
  induction s as [|e s IH]; [done|]. simpl.
  destruct (decide (e = Some x)); [done|].
  destruct (Set_delete x s). simpl in *. by rewrite IH.
Qed.

Lemma Set_add_live x s :
  live (Set_add x s) = if bool_decide (x ∈ live s) then live s else live s ++ [x].
Proof.
  unfold Set_add, Set_has.
  rewrite (bool_decide_ext (x ∈ live s) (Some x ∈ s)) by apply elem_of_live.
  destruct (bool_decide (Some x ∈ s)); [done|]. by rewrite live_app.
Qed.

(** X5: subscribing and then calling the returned function.  The call
    reports a removal and the listener is registered no more; the other
    listeners keep their place.  When the listener was not registered
    before, the registry is back to what it was; when it was, the second
    subscription had changed nothing, so the one registration the two
    subscribers shared is gone. *)
Theorem subscribe_then_unsubscribe (f : fid) (σ : store) :
  Set_wf (listeners σ) →
  (unsubscribe f (subscribe f σ)).1 = true
  ∧ live (listeners (unsubscribe f (subscribe f σ)).2)
    = filter (λ g, g ≠ f) (live (listeners σ))
  ∧ (f ∉ live (listeners σ) →
     live (listeners (unsubscribe f (subscribe f σ)).2) = live (listeners σ))
  ∧ (f ∈ live (listeners σ) →
     subscribe f σ = σ
     ∧ (f ∉ live (listeners (unsubscribe f (subscribe f σ)).2))).
Proof.
  intros Hwf.
  assert (Hwf' : Set_wf (Set_add f (listeners σ))) by by apply Set_add_wf.
  assert (Hlive :
    live (listeners (unsubscribe f (subscribe f σ)).2)
    = filter (λ g, g ≠ f) (live (listeners σ))).
  { unfold unsubscribe, subscribe. cbn [set_listeners listeners].
    pose proof (Set_delete_filter f _ Hwf') as Hdel.
    destruct (Set_delete f (Set_add f (listeners σ))) as [b s']. simpl in *.
    rewrite Hdel, Set_add_live. case_bool_decide; [done|].
    rewrite filter_app, filter_cons_False by (intros H'; by apply H').
    by rewrite app_nil_r. }
  split; [|split; [done|split]].
  - unfold unsubscribe, subscribe. cbn [set_listeners listeners].
    pose proof (Set_delete_present f (Set_add f (listeners σ))) as Hp.
    destruct (Set_delete f (Set_add f (listeners σ))) as [b s']. simpl in *.
    apply Hp. pose proof (Set_has_add f (listeners σ)) as Hhas.
    unfold Set_has in Hhas. by apply bool_decide_eq_true_1 in Hhas.
  - intros Hf. by rewrite Hlive, filter_ne_absent.
  - intros Hf. split.
    + unfold subscribe, Set_add, Set_has.
      rewrite bool_decide_eq_true_2 by by apply elem_of_live.
      by destruct σ.
    + rewrite Hlive. intros [H _]%list_elem_of_filter. by apply H.
Qed.

(** X6: a listener that unsubscribes and subscribes again is registered
    last, after every listener that was registered in the meantime stayed
    in place; the next write reaches the (quiet) listeners in that order. *)
Theorem resubscribe_moves_last (fun_body : fid → list value → prog value)
    (d n : nat) (f : fid) (v : value) (σ : store) :
  Set_wf (listeners σ) → f ∈ live (listeners σ) →
  let σ' := subscribe f (unsubscribe f σ).2 in
  live (listeners σ') = filter (λ g, g ≠ f) (live (listeners σ)) ++ [f]
  ∧ (typeof v ≠ TFunction → Object_is (state σ) v = false →
     (∀ fn, fn ∈ live (listeners σ) → ∀ args, quiet d (fun_body fn args)) →
     d < n → S (length (listeners σ)) < n →
     ∃ h,
       setState fun_body (@exec fun_body n) n v (Some true) σ'
       = Done tt
           (grown h
              (notified v (state σ)
                 (filter (λ g, g ≠ f) (live (listeners σ)) ++ [f]))
              (set_state v σ'))).
Proof.
  intros Hwf Hf σ'.
  assert (Hlive :
    live (listeners σ') = filter (λ g, g ≠ f) (live (listeners σ)) ++ [f]).
  { subst σ'. unfold subscribe, unsubscribe.
    pose proof (Set_delete_filter f _ Hwf) as Hdel.
    destruct (Set_delete f (listeners σ)) as [b s']. simpl in *.
    rewrite Set_add_live, Hdel, bool_decide_eq_false_2; [done|].
    intros [H _]%list_elem_of_filter. by apply H. }
  split; [done|].
  intros Hplain Hdiff Hq Hd Hlen.
  assert (Hstate : state σ' = state σ).
  { subst σ'. unfold subscribe, unsubscribe.
    by destruct (Set_delete f (listeners σ)). }
  assert (Hlen' : length (listeners σ') ≤ S (length (listeners σ))).
  { subst σ'. unfold subscribe, unsubscribe.
    pose proof (Set_delete_length f (listeners σ)) as Hl.
    destruct (Set_delete f (listeners σ)) as [b s']. simpl in *.
    cbn [set_listeners listeners].
    unfold Set_add. case_match; [lia|]. rewrite length_app. simpl. lia. }
  rewrite (setState_changed fun_body _ n v (Some true) σ' σ' v);
    [|by apply resolve_plain | by rewrite Hstate].
  rewrite assign_state_replace by by left.
  destruct (notify_quiet fun_body d n n (state σ') (set_state v σ'))
    as (h & ->); [done | cbn [set_state listeners]; lia | |].
  { intros fn Hfn. apply Hq. apply elem_of_live in Hfn.
    cbn [set_state listeners] in Hfn. rewrite Hlive in Hfn.
    apply elem_of_app in Hfn as [[_ Hfn]%list_elem_of_filter | Hfn];
      [done|].
    apply list_elem_of_singleton in Hfn as ->. done. }
  exists h. cbn [set_state listeners state]. by rewrite Hlive, Hstate.
Qed.

(** ** Exceptions and removals during a write *)

Section PassMore.

Variable fun_body : fid → list value → prog value.

(** X13: a store as [createStore] returns it never has a listener
    registered twice, and no code run against it can make it so. *)
Theorem registry_stays_a_set (fuel : nat) (createState : prog value)
    (h : heap_t) (σ : store) :
  createStore fun_body fuel createState h = Done tt σ →
  Set_wf (listeners σ)
  ∧ ∀ (n : nat) (R : Type) (p : prog R),
      ends_in (λ s, Set_wf (listeners s)) (exec fun_body n p σ).
Proof.
  intros Hcreate.
  assert (Hwf : Set_wf (listeners σ)) by by eapply createStore_Set_wf.
  split; [done|]. intros n R p. by apply exec_keeps_Set_wf.
Qed.


(** A listener that unsubscribes some listener [c] while the pass is
    running, when that leaves it in place and turns the entries after it
    into [rest']. *)
Lemma notify_unsubscribing_other (d n fuel : nat) (prev : value)
    (σ : store) (pre rest rest' : list (option fid)) (a c : fid) (b : bool) :
  d < S (S n) → length (listeners σ) < fuel →
  listeners σ = pre ++ Some a :: rest →
  Set_delete c (listeners σ) = (b, pre ++ Some a :: rest') →
  length rest' = length rest →
  (∀ fn, Some fn ∈ pre ++ rest' → ∀ args, quiet d (fun_body fn args)) →
  fun_body a [state σ; prev] = Unsubscribe c (λ _, Ret VUndefined) →
  ∃ h,
    notify fun_body (@exec fun_body (S (S n))) fuel prev σ
    = Done tt
        (set_listeners (pre ++ Some a :: rest')
           (grown h
              (notified (state σ) prev (live pre ++ a :: live rest')) σ)).
Proof.
  intros Hd Hfuel HL Hdel Hrest Hq Ha. unfold notify.
  assert (Hlen : length (listeners σ) = length pre + S (length rest)).
  { rewrite HL, length_app. done. }
  replace fuel
    with (length pre
          + S (length rest' + S (fuel - (length pre + length rest + 2))))
    by lia.
  destruct (forEach_quiet_prefix fun_body d (S (S n)) prev Hd (length pre) 0 σ
              (S (length rest'
                  + S (fuel - (length pre + length rest + 2)))))
    as (h1 & ->).
  { lia. }
  { rewrite drop_0, HL, take_app_length. intros fn Hfn. apply Hq.
    apply elem_of_app. by left. }
  rewrite drop_0, HL, take_app_length. simpl (0 + _).
  erewrite forEach_step; last first.
  { cbn [grown listeners]. rewrite HL. by apply list_lookup_middle. }
  rewrite (notify_cb_unsubscribe fun_body n prev a c VUndefined) by apply Ha.
  cbn [obind]. set (σB := (unsubscribe c _).2).
  assert (HLB : listeners σB = pre ++ Some a :: rest').
  { subst σB. unfold unsubscribe.
    cbn [set_listeners listeners log_call grown]. by rewrite Hdel. }
  destruct (forEach_quiet_prefix fun_body d (S (S n)) prev Hd (length rest')
              (S (length pre)) σB
              (S (fuel - (length pre + length rest + 2)))) as (h2 & ->).
  { rewrite HLB, !length_app. simpl. lia. }
  { rewrite HLB, drop_after_middle, firstn_all. intros fn Hfn. apply Hq.
    apply elem_of_app. by right. }
  rewrite forEach_end; last first.
  { cbn [grown listeners]. rewrite HLB, !length_app. simpl. lia. }
  exists (h1 ++ h2). f_equal.
  rewrite HLB, drop_after_middle, firstn_all.
  subst σB. unfold unsubscribe.
  cbn [set_listeners listeners log_call grown state heap calls].
  rewrite Hdel. unfold set_listeners, grown.
  cbn [state listeners heap calls snd].
  rewrite !notified_app. simpl. rewrite <- !app_assoc. simpl.
  reflexivity.
Qed.

(** X12: a listener that, while being notified, unsubscribes a listener
    registered after it: the removal takes effect in the pass under way,
    the removed listener is not told of this write, and every other
    listener is. *)
Theorem notify_unsubscribing_later (d n fuel : nat) (prev : value)
    (σ : store) (pre mid post : list (option fid)) (a c : fid) :
  d < S (S n) → length (listeners σ) < fuel →
  listeners σ = pre ++ Some a :: mid ++ Some c :: post →
  Some c ∉ pre → c ≠ a → Some c ∉ mid →
  (∀ fn, Some fn ∈ pre ++ mid ++ post →
         ∀ args, quiet d (fun_body fn args)) →
  fun_body a [state σ; prev] = Unsubscribe c (λ _, Ret VUndefined) →
  ∃ h,
    notify fun_body (@exec fun_body (S (S n))) fuel prev σ
    = Done tt
        (set_listeners (pre ++ Some a :: mid ++ None :: post)
           (grown h
              (notified (state σ) prev
                        (live pre ++ a :: live mid ++ live post))
              σ)).
Proof.
  intros Hd Hfuel HL Hpre Hca Hmid Hq Ha.
  destruct (notify_unsubscribing_other d n fuel prev σ pre
              (mid ++ Some c :: post) (mid ++ None :: post) a c true)
    as (h & ->); try done.
  - rewrite HL.
    replace (pre ++ Some a :: mid ++ Some c :: post)
      with ((pre ++ Some a :: mid) ++ Some c :: post)
      by (by rewrite <- app_assoc).
    rewrite Set_delete_middle; [by rewrite <- app_assoc|].
    rewrite not_elem_of_app, not_elem_of_cons. split; [done|].
    split; [congruence | done].
  - by rewrite !length_app.
  - intros fn Hfn. apply Hq. rewrite !elem_of_app in Hfn |- *.
    destruct Hfn as [Hfn | [Hfn | Hfn]]; [by left | right; by left |].
    apply elem_of_cons in Hfn as [Hfn | Hfn]; [done | right; by right].
  - exists h. by rewrite live_app.
Qed.

End PassMore.

(** ** How writes compose *)

Lemma set_state_grown v h cs σ :
  set_state v (grown h cs σ) = grown h cs (set_state v σ).
Proof. done. Qed.

Lemma set_state_set_state v w σ : set_state w (set_state v σ) = set_state w σ.
Proof. done. Qed.

Lemma notified_chain_length prev vs fn :
  length (notified_chain prev vs [fn]) = length vs.
Proof.
  revert prev. induction vs as [|v vs IH]; intros prev; [done|].
  simpl. by rewrite IH.
Qed.

Lemma calls_to_chain fn prev vs fns :
  NoDup fns → fn ∈ fns →
  calls_to fn (notified_chain prev vs fns) = notified_chain prev vs [fn].
Proof.
  intros Hnd Hin. revert prev. induction vs as [|v vs IH]; intros prev; [done|].
  simpl. unfold calls_to in *. rewrite filter_app, IH.
  fold (calls_to fn (notified v prev fns)).
  rewrite calls_to_notified, filter_eq_NoDup by done.
  by rewrite bool_decide_eq_true_2.
Qed.

Lemma own_props_old (h h' : heap_t) (l : loc) :
  l < length h → own_props (h ++ h') (VObj l) = own_props h (VObj l).
Proof. intros Hl. simpl. by rewrite lookup_app_l. Qed.

Lemma own_props_new (h h' : heap_t) (o : obj) :
  own_props ((h ++ [o]) ++ h') (VObj (length h)) = o.
Proof.
  simpl. rewrite lookup_app_l by (rewrite length_app; simpl; lia).
  by rewrite list_lookup_middle.
Qed.

Section WritesMore.

Variable fun_body : fid → list value → prog value.

(** A write that changes the state, with quiet listeners. *)
Lemma setState_quiet (d n : nat) (v : value) (replace : option bool)
    (σ : store) :
  typeof v ≠ TFunction → Object_is (state σ) v = false →
  (∀ fn, Some fn ∈ listeners σ → ∀ args, quiet d (fun_body fn args)) →
  d < n → length (listeners σ) < n →
  ∃ h,
    setState fun_body (@exec fun_body n) n v replace σ
    = Done tt
        (grown h
           (notified (state (assign_state replace v σ)) (state σ)
                     (live (listeners σ)))
           (assign_state replace v σ)).
Proof.
  intros Hplain Hdiff Hq Hd Hlen.
  rewrite (setState_changed fun_body _ n v replace σ σ v);
    [|by apply resolve_plain | done].
  destruct (notify_quiet fun_body d n n (state σ) (assign_state replace v σ))
    as (h & ->).
  - done.
  - by rewrite assign_state_listeners.
  - intros fn. rewrite assign_state_listeners. apply Hq.
  - exists h. by rewrite assign_state_listeners.
Qed.

(** X9: a replacing write made twice.  The first assigns the value and
    notifies the (quiet) listeners; the second finds the state identical to
    its argument and does nothing at all. *)
Theorem replace_twice (d n : nat) (v : value) (replace : option bool)
    (σ : store) :
  typeof v ≠ TFunction →
  replace = Some true ∨ (replace = None ∧ typeof v ≠ TObject) →
  Object_is (state σ) v = false →
  (∀ fn, Some fn ∈ listeners σ → ∀ args, quiet d (fun_body fn args)) →
  d < n → length (listeners σ) < n →
  ∃ σ1,
    setState fun_body (@exec fun_body n) n v replace σ = Done tt σ1
    ∧ state σ1 = v
    ∧ calls σ1 = calls σ ++ notified v (state σ) (live (listeners σ))
    ∧ setState fun_body (@exec fun_body n) n v replace σ1 = Done tt σ1.
Proof.
  intros Hplain Hrep Hdiff Hq Hd Hlen.
  destruct (setState_quiet d n v replace σ) as (h & ->); try done.
  rewrite assign_state_replace by done.
  eexists. split; [reflexivity|]. split; [done|]. split; [done|].
  unfold setState. rewrite resolve_plain by done. cbn [obind grown state set_state].
  unfold Object_is. by rewrite bool_decide_eq_true_2.
Qed.

(** X8: the same record merged twice.  Both writes change the state and
    notify the (quiet) listeners: each stores a new record, so the two
    states are distinct references, although they hold the same
    properties, those of the first merge. *)
Theorem merge_twice (d n : nat) (lp : loc) (replace : option bool)
    (σ : store) :
  replace = Some false ∨ replace = None →
  lp < length (heap σ) → in_heap (heap σ) (state σ) → state σ ≠ VObj lp →
  (∀ fn, Some fn ∈ listeners σ → ∀ args, quiet d (fun_body fn args)) →
  d < n → length (listeners σ) < n →
  ∃ σ1 σ2,
    setState fun_body (@exec fun_body n) n (VObj lp) replace σ = Done tt σ1
    ∧ setState fun_body (@exec fun_body n) n (VObj lp) replace σ1
      = Done tt σ2
    ∧ state σ1 ≠ state σ ∧ state σ2 ≠ state σ1
    ∧ own_props (heap σ2) (state σ1)
      = Object_assign (heap σ) (state σ) (VObj lp)
    ∧ own_props (heap σ2) (state σ2)
      = Object_assign (heap σ) (state σ) (VObj lp)
    ∧ calls σ2
      = calls σ ++ notified (state σ1) (state σ) (live (listeners σ))
                ++ notified (state σ2) (state σ1) (live (listeners σ)).
Proof.
  intros Hrep Hlp Hst Hne Hq Hd Hlen.
  assert (Hmerge : ∀ τ,
    assign_state replace (VObj lp) τ
    = set_state (VObj (length (heap τ)))
        (set_heap (heap τ ++ [Object_assign (heap τ) (state τ) (VObj lp)]) τ)).
  { intros τ. apply assign_state_merge.
    destruct Hrep as [-> | ->]; [by left | by right]. }
  destruct (setState_quiet d n (VObj lp) replace σ) as (h1 & Hw1); try done.
  { unfold Object_is. by rewrite bool_decide_eq_false_2. }
  rewrite Hmerge in Hw1. cbn [set_state set_heap state listeners] in Hw1.
  set (o1 := Object_assign (heap σ) (state σ) (VObj lp)) in *.
  set (σ1 := grown h1 _ _) in Hw1.
  assert (Hheap1 : heap σ1 = (heap σ ++ [o1]) ++ h1) by done.
  assert (Hstate1 : state σ1 = VObj (length (heap σ))) by done.
  destruct (setState_quiet d n (VObj lp) replace σ1) as (h2 & Hw2); try done.
  { rewrite Hstate1. unfold Object_is. rewrite bool_decide_eq_false_2; [done|].
    intros [= H]. lia. }
  rewrite Hmerge in Hw2. cbn [set_state set_heap state listeners] in Hw2.
  assert (Ho2 : Object_assign (heap σ1) (state σ1) (VObj lp) = o1).
  { unfold Object_assign. rewrite Hheap1, Hstate1, own_props_new.
    rewrite <- app_assoc, own_props_old by done.
    subst o1. unfold Object_assign. apply map_eq. intros key.
    rewrite !lookup_union.
    by destruct (own_props (heap σ) (VObj lp) !! key),
                (own_props (heap σ) (state σ) !! key). }
  rewrite Ho2 in Hw2. set (σ2 := grown h2 _ _) in Hw2.
  assert (Hheap2 : heap σ2 = (heap σ1 ++ [o1]) ++ h2) by done.
  exists σ1, σ2. split; [done|]. split; [done|].
  split; [|split; [|split; [|split]]].
  - rewrite Hstate1. intros Heq. rewrite <- Heq in Hst. simpl in Hst. lia.
  - subst σ2. cbn [grown state]. rewrite Hstate1, Hheap1.
    intros [= H]. rewrite !length_app in H. simpl in H. lia.
  - rewrite Hheap2, Hstate1, Hheap1.
    rewrite <- !app_assoc. rewrite (app_assoc (heap σ) [o1]).
    by rewrite own_props_new.
  - rewrite Hheap2. subst σ2. cbn [grown state]. by rewrite own_props_new.
  - subst σ2 σ1. unfold grown, set_state, set_heap. simpl. by rewrite <- app_assoc.
Qed.

(** X10: a run of replacing writes in which every value differs from the
    one before.  Each write notifies every (quiet) listener once, with its
    value and the value before it; the state ends as the last value, and a
    registered listener has been called as many times as there were
    writes. *)
Theorem write_all_notifies (d : nat) (replace : option bool)
    (vs : list value) :
  replace = Some true
  ∨ (replace = None ∧ Forall (λ v, typeof v ≠ TObject) vs) →
  Forall (λ v, typeof v ≠ TFunction) vs →
  ∀ (n : nat) (σ : store),
    changes (state σ) vs →
    Set_wf (listeners σ) →
    (∀ fn, Some fn ∈ listeners σ → ∀ args, quiet d (fun_body fn args)) →
    length vs + d < n → length vs + length (listeners σ) < n →
    ∃ h,
      exec fun_body n (write_all replace vs) σ
      = Done tt
          (grown h (notified_chain (state σ) vs (live (listeners σ)))
                 (set_state (default (state σ) (last vs)) σ))
      ∧ ∀ fn, Some fn ∈ listeners σ →
          length (calls_to fn
                    (notified_chain (state σ) vs (live (listeners σ))))
          = length vs.
Proof.
  intros Hrep Hplain n σ Hch Hwf Hq Hd Hlen.
  assert (Hcount : ∀ fn, Some fn ∈ listeners σ →
    length (calls_to fn (notified_chain (state σ) vs (live (listeners σ))))
    = length vs).
  { intros fn Hfn. rewrite calls_to_chain by (done || by apply elem_of_live).
    apply notified_chain_length. }
  cut (∃ h,
    exec fun_body n (write_all replace vs) σ
    = Done tt
        (grown h (notified_chain (state σ) vs (live (listeners σ)))
               (set_state (default (state σ) (last vs)) σ))).
  { intros [h Hh]. by exists h. }
  clear Hcount Hwf.
  revert n σ Hch Hq Hd Hlen.
  induction vs as [|v vs IH]; intros n σ Hch Hq Hd Hlen.
  - destruct n as [|n]; [simpl in Hd; lia|]. exists []. simpl.
    rewrite grown_nil. by destruct σ.
  - destruct n as [|n]; [simpl in Hd; lia|].
    destruct Hch as [Hne Hch].
    apply Forall_cons in Hplain as [Hv Hplain].
    assert (Hrep' : replace = Some true
                    ∨ (replace = None ∧ Forall (λ v, typeof v ≠ TObject) vs)).
    { destruct Hrep as [-> | [-> [_ H]%Forall_cons]]; [by left | by right]. }
    assert (Hrepv : replace = Some true ∨ (replace = None ∧ typeof v ≠ TObject)).
    { destruct Hrep as [-> | [-> [H _]%Forall_cons]]; [by left | by right]. }
    cbn [write_all exec]. simpl in Hd, Hlen.
    destruct (setState_quiet d n v replace σ) as (h1 & ->);
      [done | | done | lia | lia |].
    { unfold Object_is. by rewrite bool_decide_eq_false_2. }
    rewrite assign_state_replace by done. cbn [obind set_state state].
    set (σ1 := grown h1 _ _).
    destruct (IH Hrep' Hplain n σ1) as (h2 & ->); [done | done | lia | | ].
    { subst σ1. cbn [grown listeners set_state]. lia. }
    exists (h1 ++ h2). f_equal. subst σ1.
    cbn [grown state listeners set_state].
    rewrite last_cons. unfold grown, set_state. cbn [state listeners heap calls].
    rewrite <- !app_assoc. by destruct (last vs).
Qed.

End WritesMore.

(** ** A write made by a listener during a pass *)

Section ReentrantWrite.

Variable fun_body : fid → list value → prog value.

(** As [forEach_quiet_prefix], asking the listeners to be quiet only on
    the arguments the pass gives them. *)
Lemma forEach_quiet_prefix_at (d n : nat) (prev : value) :
  d < n →
  ∀ k i σ fuel,
    i + k ≤ length (listeners σ) →
    (∀ fn, Some fn ∈ take k (drop i (listeners σ)) →
           quiet d (fun_body fn [state σ; prev])) →
    ∃ h,
      Set_forEach (notify_cb fun_body (@exec fun_body n) prev)
                  (k + fuel) i σ
      = Set_forEach (notify_cb fun_body (@exec fun_body n) prev)
          fuel (i + k)
          (grown h
             (notified (state σ) prev (live (take k (drop i (listeners σ)))))
             σ).
Proof.
  intros Hd. induction k as [|k IH]; intros i σ fuel Hlen Hq.
  - exists []. rewrite Nat.add_0_r, take_0. simpl. by rewrite grown_nil.
  - destruct (lookup_lt_is_Some_2 (listeners σ) i) as [e He]; [lia|].
    rewrite (drop_S _ _ _ He) in Hq |- *. rewrite firstn_cons in Hq |- *.
    change (S k + fuel) with (S (k + fuel)).
    cbn [Set_forEach]. rewrite He. destruct e as [fn|].
    + unfold notify_cb at 1.
      destruct (call_quiet fun_body d n fn [state σ; prev] σ)
        as (r & h1 & ->); [apply Hq; left | done |].
      cbn [obind].
      destruct (IH (S i) (grown h1 [(fn, [state σ; prev])] σ) fuel)
        as (h2 & ->); [simpl; lia | |].
      { intros g Hg. apply Hq. by right. }
      exists (h1 ++ h2). rewrite grown_grown.
      replace (S i + k) with (i + S k) by lia. done.
    + destruct (IH (S i) σ fuel) as (h2 & ->); [lia | |].
      { intros g Hg. apply Hq. by right. }
      exists h2. replace (S i + k) with (i + S k) by lia. done.
Qed.

Lemma notify_quiet_at (d n fuel : nat) (prev : value) (σ : store) :
  d < n → length (listeners σ) < fuel →
  (∀ fn, Some fn ∈ listeners σ → quiet d (fun_body fn [state σ; prev])) →
  ∃ h, notify fun_body (@exec fun_body n) fuel prev σ
       = Done tt (grown h (notified (state σ) prev (live (listeners σ))) σ).
Proof.
  intros Hd Hfuel Hq. unfold notify.
  replace fuel with (length (listeners σ)
                     + S (fuel - S (length (listeners σ)))) by lia.
  destruct (forEach_quiet_prefix_at d n prev Hd (length (listeners σ)) 0 σ
              (S (fuel - S (length (listeners σ))))) as (h & ->).
  - simpl; lia.
  - rewrite drop_0, firstn_all. exact Hq.
  - exists h. rewrite drop_0, firstn_all. by apply forEach_end.
Qed.

Lemma exec_Ret (n : nat) {R : Type} (r : R) (σ : store) :
  exec fun_body (S n) (Ret r) σ = Done r σ.
Proof. done. Qed.

Lemma exec_SetState (n : nat) {R : Type} (partial : value)
    (replace : option bool) (k : prog R) (σ : store) :
  exec fun_body (S n) (SetState partial replace k) σ
  = obind (setState fun_body (@exec fun_body n) n partial replace σ)
          (λ _ σ, exec fun_body n k σ).
Proof. done. Qed.

(** X11: a listener that writes a new value when it is notified.  The pass
    of the inner write runs to its end first, over every listener of the
    registry, the writer included; the outer pass then goes on, and tells
    the listeners after the writer of the newest state together with the
    previous state of the outer write.  Those listeners are so called
    twice, and never with the state the outer write had assigned. *)
Theorem notify_writing (d n fuel : nat) (prev v2 : value)
    (replace : option bool) (σ : store)
    (pre post : list (option fid)) (a : fid) :
  d + 1 < n → length (listeners σ) + 1 < n → length (listeners σ) < fuel →
  listeners σ = pre ++ Some a :: post →
  (∀ fn, Some fn ∈ pre ++ post → ∀ args, quiet d (fun_body fn args)) →
  fun_body a [state σ; prev] = SetState v2 replace (Ret VUndefined) →
  quiet d (fun_body a [v2; state σ]) →
  typeof v2 ≠ TFunction →
  replace = Some true ∨ (replace = None ∧ typeof v2 ≠ TObject) →
  state σ ≠ v2 →
  ∃ h,
    notify fun_body (@exec fun_body n) fuel prev σ
    = Done tt
        (grown h
           (notified (state σ) prev (live pre ++ [a])
            ++ notified v2 (state σ) (live (listeners σ))
            ++ notified v2 prev (live post))
           (set_state v2 σ)).
Proof.
  intros Hd Hn Hfuel HL Hq Ha Hqa Hplain Hrep Hne. unfold notify.
  destruct n as [|n1]; [lia|].
  assert (Hlen : length (listeners σ) = length pre + S (length post)).
  { rewrite HL, length_app. done. }
  replace fuel
    with (length pre
          + S (length post + S (fuel - (length pre + length post + 2))))
    by lia.
  destruct (forEach_quiet_prefix fun_body d (S n1) prev ltac:(lia)
              (length pre) 0 σ
              (S (length post + S (fuel - (length pre + length post + 2)))))
    as (h1 & ->).
  { lia. }
  { rewrite drop_0, HL, take_app_length. intros fn Hfn. apply Hq.
    apply elem_of_app. by left. }
  rewrite drop_0, HL, take_app_length. rewrite <- HL. simpl (0 + _).
  set (σa := grown h1 _ σ).
  erewrite forEach_step; last first.
  { subst σa. cbn [grown listeners]. rewrite HL. by apply list_lookup_middle. }
  unfold notify_cb at 1. unfold call.
  change (state σa) with (state σ). rewrite Ha, exec_SetState.
  set (σl := log_call (a, [state σ; prev]) σa).
  rewrite (setState_changed fun_body _ n1 v2 replace σl σl v2);
    [| by apply resolve_plain
     | unfold Object_is; by rewrite bool_decide_eq_false_2].
  rewrite assign_state_replace by done.
  set (σw := set_state v2 σl).
  destruct (notify_quiet_at d n1 n1 (state σ) σw) as (h2 & Hin).
  { lia. }
  { subst σw σl σa. cbn [set_state log_call grown listeners]. lia. }
  { subst σw σl σa. cbn [set_state log_call grown listeners state].
    rewrite HL. intros fn [Hfn | Hfn]%elem_of_app.
    - apply Hq. apply elem_of_app. by left.
    - apply elem_of_cons in Hfn as [Heq | Hfn].
      + by injection Heq as ->.
      + apply Hq. apply elem_of_app. by right. }
  change (state σl) with (state σ).
  rewrite Hin. cbn [obind].
  destruct n1 as [|n2]; [lia|]. rewrite exec_Ret. cbn [obind].
  set (σn := grown h2 _ σw).
  destruct (forEach_quiet_prefix fun_body d (S (S n2)) prev ltac:(lia)
              (length post) (S (length pre)) σn
              (S (fuel - (length pre + length post + 2)))) as (h3 & ->).
  { subst σn σw σl σa. cbn [grown set_state log_call listeners]. lia. }
  { subst σn σw σl σa. cbn [grown set_state log_call listeners].
    rewrite HL, drop_after_middle, firstn_all. intros fn Hfn. apply Hq.
    apply elem_of_app. by right. }
  rewrite forEach_end; last first.
  { subst σn σw σl σa. cbn [grown set_state log_call listeners]. lia. }
  exists (h1 ++ h2 ++ h3). f_equal.
  subst σn σw σl σa. unfold grown, set_state, log_call.
  cbn [state listeners heap calls].
  rewrite HL, drop_after_middle, firstn_all.
  rewrite !notified_app. simpl. rewrite <- !app_assoc. simpl.
  reflexivity.
Qed.

End ReentrantWrite.

(** ** A render after the state changed *)

Section RenderAfterWrite.

Variable fun_body : fid → list value → prog value.

(** X14: a later render of a component whose selector and comparator are
    those of its last render, after the state changed.  The memoized getter
    is reused; it calls the selector on the new state and then the
    comparator on the memoized selection and the candidate.  On a truthy
    answer the render returns the memoized selection and the memoizer is
    left as it was, snapshot included; on a falsy answer the candidate is
    returned and memoized with the new state.  The instance record is not
    read. *)
Theorem render_after_write (run : runner) (selector isEqual : value)
    (hk : hooks) (s0 v0 : value) (σ σ1 σ2 : store) (cand r : value) :
  memo_deps hk = Some [selector; isEqual] →
  memo_vars hk = {| hasMemo := true; memoizedSnapshot := s0;
                    memoizedSelection := v0 |} →
  state σ ≠ s0 →
  defined isEqual = true →
  call fun_body run selector [state σ] σ = Done cand σ1 →
  call fun_body run isEqual [v0; cand] σ1 = Done r σ2 →
  useSyncExternalStoreWithSelector fun_body run getState selector isEqual
    hk σ
  = Done (if truthy r then v0 else cand)
      ({| instRef_current := inst_of_ref (instRef_current hk);
          memo_deps := Some [selector; isEqual];
          memo_vars :=
            if truthy r then memo_vars hk
            else {| hasMemo := true; memoizedSnapshot := state σ;
                    memoizedSelection := cand |};
          effect_deps := effect_deps hk |}, σ2).
Proof.
  intros Hdeps Hvars Hne Hdef Hsel Hcmp.
  unfold useSyncExternalStoreWithSelector, useSyncExternalStore, useRef,
    useMemo, getSnapshotWithSelector. cbn [snd]. unfold getState.
  rewrite Hdeps, bool_decide_eq_true_2 by done. rewrite Hvars.
  unfold memoizedSelector.
  cbn [hasMemo memoizedSnapshot memoizedSelection negb].
  unfold Object_is. rewrite bool_decide_eq_false_2 by congruence.
  rewrite Hsel. cbn [with_memo obind]. rewrite Hdef, Hcmp.
  cbn [with_memo obind]. by destruct (truthy r).
Qed.

End RenderAfterWrite.

(** ** From creation to the first render *)

Section CreateMore.

Variable fun_body : fid → list value → prog value.

(** X15: [create(createState)(selector)] in a component's first render.
    When the initializer returns [v], the hook returned by [create],
    called with a selector and no comparator, calls the selector on [v],
    whatever state the initializer's own writes had produced, and returns
    its result. *)
Theorem create_then_select (run : runner) (fuel : nat)
    (createState : prog value) (h : heap_t) (v : value) (σ0 σ1 : store)
    (selector r : value) (current : instance) :
  exec fun_body fuel createState (fresh_store h) = Done v σ0 →
  call fun_body run selector [v] (set_state v σ0) = Done r σ1 →
  ∃ σ,
    create fun_body fuel createState h = Done tt σ
    ∧ listeners σ = listeners σ0
    ∧ useBoundStore fun_body run [selector] (mount_hooks current) σ
      = Done r
          ({| instRef_current := inst_of_ref current;
              memo_deps := Some [selector; VUndefined];
              memo_vars := {| hasMemo := true; memoizedSnapshot := v;
                              memoizedSelection := r |};
              effect_deps := None |}, σ1).
Proof.
  intros Hinit Hsel. exists (set_state v σ0).
  split; [|split; [done|]].
  - unfold create, createImpl, createStore. by rewrite Hinit.
  - unfold useBoundStore, useStore, useSyncExternalStoreWithSelector,
      useSyncExternalStore, useRef, useMemo, getSnapshotWithSelector.
    cbn [nth mount_hooks memo_deps instRef_current effect_deps snd].
    rewrite bool_decide_eq_false_2 by done.
    unfold memoizedSelector. cbn [fresh_memo hasMemo negb].
    unfold getState. cbn [set_state state]. rewrite Hsel.
    cbn [with_memo obind].
    change (defined VUndefined) with false. reflexivity.
Qed.

End CreateMore.

(** ** The further properties at sample inputs *)

Lemma memoizedSelector_adopts_candidate_witness :
  memoizedSelector Demo.fun_body (@exec Demo.fun_body 5) (VFun 6) VUndefined
    InstUndefined (VObj 1) (Demo.memo_before, Demo.after_merge)
  = Done (VNum 0)
      ({| hasMemo := true; memoizedSnapshot := VObj 1;
          memoizedSelection := VNum 0 |},
       log_call (6, [VObj 1]) Demo.after_merge).
Proof.
  refine (proj1 (memoizedSelector_adopts_candidate Demo.fun_body
            (@exec Demo.fun_body 5) (VFun 6) VUndefined InstUndefined
            (VObj 1) Demo.memo_before Demo.after_merge
            (log_call (6, [VObj 1]) Demo.after_merge)
            (log_call (6, [VObj 1]) Demo.after_merge) (VNum 0) _ _ _ _)).
  - reflexivity.
  - vm_compute; reflexivity.
  - vm_compute; reflexivity.
  - left. split; reflexivity.
Defined.

Lemma first_call_never_compares_witness :
  memoizedSelector Demo.fun_body (@exec Demo.fun_body 5) (VFun 6) (VFun 7)
    (InstRecord true (VNum 9)) (VObj 0) (fresh_memo, Demo.counter [])
  = Done (VNum 9)
      ({| hasMemo := true; memoizedSnapshot := VObj 0;
          memoizedSelection := VNum 9 |},
       log_call (6, [VObj 0]) (Demo.counter [])).
Proof.
  destruct (first_call_never_compares Demo.fun_body (@exec Demo.fun_body 5)
              (VFun 6) (VObj 0) fresh_memo (Demo.counter [])
              (log_call (6, [VObj 0]) (Demo.counter [])) (VNum 0))
    as (_ & _ & H).
  - reflexivity.
  - vm_compute; reflexivity.
  - apply H. reflexivity.
Defined.

Lemma render_again_witness :
  let hk1 :=
    {| instRef_current := InstUndefined;
       memo_deps := Some [VFun 6; VUndefined];
       memo_vars := {| hasMemo := true; memoizedSnapshot := VObj 0;
                       memoizedSelection := VNum 0 |};
       effect_deps := None |} in
  let σ1 := log_call (6, [VObj 0]) (Demo.counter []) in
  useSyncExternalStoreWithSelector Demo.fun_body (@exec Demo.fun_body 5)
    getState (VFun 6) VUndefined hk1 σ1
  = Done (VNum 0) (hk1, σ1).
Proof.
  intros hk1 σ1.
  refine (proj1 (render_again Demo.fun_body (@exec Demo.fun_body 5) (VFun 6)
            (mount_hooks InstUndefined) hk1 (Demo.counter []) σ1 (VNum 0)
            _ _)).
  - vm_compute; reflexivity.
  - reflexivity.
Defined.

Lemma useBoundStore_selects_witness :
  useBoundStore Demo.fun_body (@exec Demo.fun_body 5) [VFun 6]
    (mount_hooks useRef_without_argument) (Demo.counter [])
  = Done (VNum 0)
      ({| instRef_current := InstUndefined;
          memo_deps := Some [VFun 6; VUndefined];
          memo_vars := {| hasMemo := true; memoizedSnapshot := VObj 0;
                          memoizedSelection := VNum 0 |};
          effect_deps := None |},
       log_call (6, [VObj 0]) (Demo.counter [])).
Proof.
  apply (useBoundStore_selects Demo.fun_body (@exec Demo.fun_body 5) (VFun 6)
           useRef_without_argument (Demo.counter [])
           (log_call (6, [VObj 0]) (Demo.counter [])) (VNum 0)).
  vm_compute; reflexivity.
Defined.

Lemma subscribe_then_unsubscribe_witness :
  (unsubscribe 3 (subscribe 3 (Demo.number 0 [Some 1; Some 3]))).1 = true
  ∧ live (listeners
            (unsubscribe 3 (subscribe 3 (Demo.number 0 [Some 1; Some 3]))).2)
    = [1].
Proof.
  destruct (subscribe_then_unsubscribe 3 (Demo.number 0 [Some 1; Some 3]))
    as (H1 & H2 & _).
  - unfold Set_wf. simpl. apply NoDup_cons. split.
    + rewrite not_elem_of_cons. split; [done | apply not_elem_of_nil].
    + apply NoDup_singleton.
  - split; [exact H1 | exact H2].
Defined.

Lemma resubscribe_moves_last_witness :
  live (listeners
          (subscribe 1 (unsubscribe 1 (Demo.number 0 [Some 1; Some 3])).2))
  = [3; 1]
  ∧ ∃ h,
      setState Demo.fun_body (@exec Demo.fun_body 4) 4 (VNum 5) (Some true)
        (subscribe 1 (unsubscribe 1 (Demo.number 0 [Some 1; Some 3])).2)
      = Done tt
          (grown h (notified (VNum 5) (VNum 0) [3; 1])
             (set_state (VNum 5)
                (subscribe 1
                   (unsubscribe 1 (Demo.number 0 [Some 1; Some 3])).2))).
Proof.
  assert (Hwf : Set_wf (listeners (Demo.number 0 [Some 1; Some 3]))).
  { unfold Set_wf. simpl. apply NoDup_cons. split.
    - rewrite not_elem_of_cons. split; [done | apply not_elem_of_nil].
    - apply NoDup_singleton. }
  assert (Hin : 1 ∈ live (listeners (Demo.number 0 [Some 1; Some 3]))).
  { simpl. apply elem_of_cons. by left. }
  pose proof (resubscribe_moves_last Demo.fun_body 0 4 1 (VNum 5)
                (Demo.number 0 [Some 1; Some 3]) Hwf Hin) as H.
  cbv zeta in H. destruct H as [H1 H2]. split; [exact H1|].
  apply H2.
  - done.
  - reflexivity.
  - intros fn Hfn args. simpl in Hfn.
    apply elem_of_cons in Hfn as [-> | Hfn]; [apply quiet_Ret|].
    apply list_elem_of_singleton in Hfn as ->. apply quiet_Ret.
  - lia.
  - simpl. lia.
Defined.


Lemma merge_twice_witness :
  ∃ σ1 σ2,
    setState Demo.fun_body (@exec Demo.fun_body 2) 2 (VObj 2) None
      Demo.after_merge = Done tt σ1
    ∧ setState Demo.fun_body (@exec Demo.fun_body 2) 2 (VObj 2) None σ1
      = Done tt σ2
    ∧ state σ2 ≠ state σ1
    ∧ own_props (heap σ2) (state σ2) = own_props (heap σ2) (state σ1).
Proof.
  destruct (merge_twice Demo.fun_body 0 2 2 None Demo.after_merge)
    as (σ1 & σ2 & H1 & H2 & _ & Hne & Ho1 & Ho2 & _).
  - by right.
  - simpl. lia.
  - simpl. lia.
  - done.
  - intros fn Hfn. simpl in Hfn. by apply elem_of_nil in Hfn.
  - lia.
  - simpl. lia.
  - exists σ1, σ2. split; [exact H1|]. split; [exact H2|].
    split; [exact Hne|]. by rewrite Ho1, Ho2.
Defined.

Lemma replace_twice_witness :
  ∃ σ1,
    setState Demo.fun_body (@exec Demo.fun_body 3) 3 (VNum 5) None
      (Demo.number 0 [Some 1; Some 3]) = Done tt σ1
    ∧ calls σ1 = [(1, [VNum 5; VNum 0]); (3, [VNum 5; VNum 0])]
    ∧ setState Demo.fun_body (@exec Demo.fun_body 3) 3 (VNum 5) None σ1
      = Done tt σ1.
Proof.
  destruct (replace_twice Demo.fun_body 0 3 (VNum 5) None
              (Demo.number 0 [Some 1; Some 3]))
    as (σ1 & H1 & _ & Hc & H2).
  - done.
  - right. by split.
  - reflexivity.
  - intros fn Hfn args. simpl in Hfn.
    apply elem_of_cons in Hfn as [[= ->] | Hfn]; [apply quiet_Ret|].
    apply list_elem_of_singleton in Hfn as [= ->]. apply quiet_Ret.
  - lia.
  - simpl. lia.
  - exists σ1. split; [exact H1|]. split; [exact Hc | exact H2].
Defined.

Lemma write_all_notifies_witness :
  ∃ h,
    exec Demo.fun_body 6 (write_all None [VNum 1; VNum 2; VNum 1])
      (Demo.number 0 [Some 1; Some 3])
    = Done tt
        (grown h
           (notified_chain (VNum 0) [VNum 1; VNum 2; VNum 1] [1; 3])
           (set_state (VNum 1) (Demo.number 0 [Some 1; Some 3]))).
Proof.
  destruct (write_all_notifies Demo.fun_body 0 None [VNum 1; VNum 2; VNum 1])
    with (n := 6) (σ := Demo.number 0 [Some 1; Some 3]) as (h & H & _).
  - right. split; [done|]. by repeat constructor.
  - by repeat constructor.
  - simpl. by repeat split.
  - unfold Set_wf. simpl. apply NoDup_cons. split.
    + rewrite not_elem_of_cons. split; [done | apply not_elem_of_nil].
    + apply NoDup_singleton.
  - intros fn Hfn args. simpl in Hfn.
    apply elem_of_cons in Hfn as [[= ->] | Hfn]; [apply quiet_Ret|].
    apply list_elem_of_singleton in Hfn as [= ->]. apply quiet_Ret.
  - simpl. lia.
  - simpl. lia.
  - exists h. exact H.
Defined.

Lemma notify_writing_witness :
  ∃ h,
    notify Demo.fun_body (@exec Demo.fun_body 5) 4 (VNum 0)
      (Demo.number 1 [Some 1; Some 4; Some 3])
    = Done tt
        (grown h
           [ (1, [VNum 1; VNum 0]); (4, [VNum 1; VNum 0]);
             (1, [VNum 2; VNum 1]); (4, [VNum 2; VNum 1]);
             (3, [VNum 2; VNum 1]); (3, [VNum 2; VNum 0]) ]
           (set_state (VNum 2) (Demo.number 1 [Some 1; Some 4; Some 3]))).
Proof.
  apply (notify_writing Demo.fun_body 0 5 4 (VNum 0) (VNum 2) None
           (Demo.number 1 [Some 1; Some 4; Some 3]) [Some 1] [Some 3] 4).
  - lia.
  - simpl. lia.
  - simpl. lia.
  - reflexivity.
  - intros fn Hfn args. simpl in Hfn.
    apply elem_of_cons in Hfn as [[= ->] | Hfn]; [apply quiet_Ret|].
    apply list_elem_of_singleton in Hfn as [= ->]. apply quiet_Ret.
  - reflexivity.
  - apply quiet_Ret.
  - done.
  - right. by split.
  - done.
Defined.

Lemma notify_unsubscribing_later_witness :
  ∃ h,
    notify Remover.fun_body (@exec Remover.fun_body 2) 6 (VNum 0)
      (Demo.number 1 [Some 1; Some 0; Some 3; Some 2; Some 4])
    = Done tt
        (set_listeners [Some 1; Some 0; Some 3; None; Some 4]
           (grown h (notified (VNum 1) (VNum 0) [1; 0; 3; 4])
              (Demo.number 1 [Some 1; Some 0; Some 3; Some 2; Some 4]))).
Proof.
  apply (notify_unsubscribing_later Remover.fun_body 0 0 6 (VNum 0)
           (Demo.number 1 [Some 1; Some 0; Some 3; Some 2; Some 4])
           [Some 1] [Some 3] [Some 4] 0 2).
  - lia.
  - simpl. lia.
  - reflexivity.
  - intros Hc. apply list_elem_of_singleton in Hc. discriminate.
  - done.
  - intros Hc. apply list_elem_of_singleton in Hc. discriminate.
  - intros fn Hfn args. simpl in Hfn.
    apply elem_of_cons in Hfn as [[= ->] | Hfn]; [apply quiet_Ret|].
    apply elem_of_cons in Hfn as [[= ->] | Hfn]; [apply quiet_Ret|].
    apply list_elem_of_singleton in Hfn as [= ->]. apply quiet_Ret.
  - reflexivity.
Defined.

Lemma registry_stays_a_set_witness :
  let σ := {| state := VNum 0; listeners := [Some 1]; heap := [];
              calls := [] |} in
  Set_wf (listeners σ)
  ∧ ends_in (λ s, Set_wf (listeners s))
      (exec Demo.fun_body 5 (Subscribe 1 (Subscribe 3 (Ret tt))) σ).
Proof.
  intros σ.
  destruct (registry_stays_a_set Demo.fun_body 3
              (Subscribe 1 (Subscribe 1 (Ret (VNum 0)))) [] σ) as [H1 H2].
  - reflexivity.
  - split; [exact H1 | apply H2].
Defined.

Lemma render_after_write_witness :
  useSyncExternalStoreWithSelector Demo.fun_body (@exec Demo.fun_body 5)
    getState (VFun 6) (VFun 7)
    {| instRef_current := InstUndefined;
       memo_deps := Some [VFun 6; VFun 7];
       memo_vars := Demo.memo_before; effect_deps := None |}
    Demo.after_merge
  = Done (VObj 2)
      ({| instRef_current := InstUndefined;
          memo_deps := Some [VFun 6; VFun 7];
          memo_vars := Demo.memo_before; effect_deps := None |},
       log_call (7, [VObj 2; VNum 0])
         (log_call (6, [VObj 1]) Demo.after_merge)).
Proof.
  apply (render_after_write Demo.fun_body (@exec Demo.fun_body 5)
           (VFun 6) (VFun 7)
           {| instRef_current := InstUndefined;
              memo_deps := Some [VFun 6; VFun 7];
              memo_vars := Demo.memo_before; effect_deps := None |}
           (VObj 0) (VObj 2) Demo.after_merge
           (log_call (6, [VObj 1]) Demo.after_merge)
           (log_call (7, [VObj 2; VNum 0])
              (log_call (6, [VObj 1]) Demo.after_merge))
           (VNum 0) (VBool true)).
  - reflexivity.
  - reflexivity.
  - done.
  - reflexivity.
  - vm_compute; reflexivity.
  - reflexivity.
Defined.

Lemma create_then_select_witness :
  ∃ σ,
    create Demo.fun_body 4
      (SetState (VNum 7) None
         (Alloc {[ "count" := VNum 3 ]} (λ l, Ret (VObj l)))) []
    = Done tt σ
    ∧ ∃ hk σ1,
        useBoundStore Demo.fun_body (@exec Demo.fun_body 5) [VFun 6]
          (mount_hooks useRef_without_argument) σ
        = Done (VNum 3) (hk, σ1).
Proof.
  destruct (create_then_select Demo.fun_body (@exec Demo.fun_body 5) 4
              (SetState (VNum 7) None
                 (Alloc {[ "count" := VNum 3 ]} (λ l, Ret (VObj l)))) []
              (VObj 0)
              {| state := VNum 7; listeners := [];
                 heap := [ {[ "count" := VNum 3 ]} ]; calls := [] |}
              (log_call (6, [VObj 0])
                 {| state := VObj 0; listeners := [];
                    heap := [ {[ "count" := VNum 3 ]} ]; calls := [] |})
              (VFun 6) (VNum 3) useRef_without_argument)
    as (σ & Hc & _ & Hr).
  - vm_compute; reflexivity.
  - vm_compute; reflexivity.
  - exists σ. split; [exact Hc|]. eexists _, _. exact Hr.
Defined.
